(** * api/chat.js: the gated streaming proxy

    A shallow embedding of the request handler of [src/api/chat.js] and the
    properties of its three-stage gate (signature verification, on-chain
    entitlement, upstream streaming proxy).

    The handler is embedded as a function from the world it talks to (the
    process environment, the signature library, the read-node, the chat
    provider, the caller's socket) and the request to the chronological
    trace of the calls it makes together with its completion.  What the
    caller sees is computed from the trace by replaying it on the response
    object.

    The libraries the handler imports are not part of the source.  What
    their calls answer is the [World], over which every property
    quantifies; [Number::toString], [BigNumber.toNumber],
    [TextDecoder.decode] and the response object are embedded after their
    specifications.  The [fetch] the handler imports is node-fetch: the
    body of its responses is a Node.js stream and has no [getReader], so
    the call of line 145 throws on every run that gets there. *)

From Stdlib Require Import ZArith NArith List String Ascii Bool Lia.
From Stdlib Require Import Strings.Byte DecimalString.
Import ListNotations.

Set Warnings "-register-all".

Local Open Scope string_scope.
Local Open Scope Z_scope.

(* ================================================================= *)
(** ** JavaScript values *)

Module Js.

(** The values a parsed JSON request body can hold.  Numbers are the
    integer-valued ones, [JNumber n] standing for the Number an integer
    literal [n] parses to; strings are byte strings. *)
Inductive JsValue : Type :=
| JUndefined
| JNull
| JBool (b : bool)
| JNumber (n : Z)
| JString (s : string)
| JArray (items : list JsValue)
| JObject (fields : list (string * JsValue)).

(** ToBoolean. *)
Definition truthy (v : JsValue) : bool :=
  match v with
  | JUndefined | JNull => false
  | JBool b => b
  | JNumber n => negb (n =? 0)
  | JString s => negb (s =? EmptyString)%string
  | JArray _ | JObject _ => true
  end.

(** [a || b] *)
Definition js_or (a b : JsValue) : JsValue := if truthy a then a else b.

(** [v === null || v === undefined] *)
Definition nullish (v : JsValue) : bool :=
  match v with
  | JUndefined | JNull => true
  | _ => false
  end.

(** [a ?? b] *)
Definition js_coalesce (a b : JsValue) : JsValue := if nullish a then b else a.

Fixpoint lookup (key : string) (fields : list (string * JsValue)) : JsValue :=
  match fields with
  | [] => JUndefined
  | (k, v) :: rest => if (k =? key)%string then v else lookup key rest
  end.

(** [v.key] for a [key] that is no built-in property name: a TypeError
    ([None]) on [null] and [undefined], an own property of an object, and
    [undefined] on primitives and arrays. *)
Definition get (v : JsValue) (key : string) : option JsValue :=
  match v with
  | JUndefined | JNull => None
  | JObject fields => Some (lookup key fields)
  | _ => Some JUndefined
  end.

(** [a && b], where [b] is evaluated only for a truthy [a]. *)
Definition js_and_then (a : JsValue) (b : option JsValue) : option JsValue :=
  if truthy a then b else Some a.

Definition lower_ascii (c : ascii) : ascii :=
  let n := N_of_ascii c in
  if ((65 <=? n) && (n <=? 90))%N then ascii_of_N (n + 32) else c.

(** [String.prototype.toLowerCase] on the ASCII range. *)
Fixpoint toLowerCase (s : string) : string :=
  match s with
  | EmptyString => EmptyString
  | String c rest => String (lower_ascii c) (toLowerCase rest)
  end.

(** [v.toLowerCase()] for a truthy [v]: only strings have the method, on
    every other value the call raises a TypeError ([None]). *)
Definition call_toLowerCase (v : JsValue) : option string :=
  match v with
  | JString s => Some (toLowerCase s)
  | _ => None
  end.

Definition has_own (key : string) (fields : list (string * JsValue)) : bool :=
  existsb (fun kv => (fst kv =? key)%string) fields.

Definition Z_to_string (n : Z) : string :=
  NilZero.string_of_int (Z.to_int n).

(** The Number nearest to a positive integer: the integer rounded to 53
    significant bits, ties to even. *)
Definition nearest_double (v : Z) : Z :=
  let e := Z.log2 v + 1 - 53 in
  if e <=? 0 then v
  else
    let q := Z.shiftr v e in
    let r := v - Z.shiftl q e in
    let half := Z.shiftl 1 (e - 1) in
    let q' := if (half <? r) || ((r =? half) && Z.odd q) then q + 1 else q in
    Z.shiftl q' e.

Definition decimal_digits (v : Z) : Z :=
  Z.of_nat (String.length (Z_to_string v)).

Fixpoint zeros (n : nat) : string :=
  match n with
  | O => EmptyString
  | S m => String "0" (zeros m)
  end.

(** The digits [s] and the position [n] of Number::toString for a
    positive integer-valued Number [x], if [k] digits are enough:
    [s * 10^(n-k)] rounds to [x] and is the closest to [x] of its kind,
    the even [s] on a tie. *)
Definition digits_of_length (x k : Z) : option (Z * Z) :=
  let nd := decimal_digits x in
  if nd <? k then None
  else
    let scale := 10 ^ (nd - k) in
    let lo := x / scale in
    let hi := lo + 1 in
    let ok_lo := nearest_double (lo * scale) =? x in
    let ok_hi := nearest_double (hi * scale) =? x in
    let up := if hi <? 10 ^ k then Some (hi, nd)
              else if k =? 1 then Some (1, nd + 1) else None in
    let d_lo := x - lo * scale in
    let d_hi := hi * scale - x in
    match ok_lo, ok_hi, up with
    | true, true, Some c =>
        if d_lo <? d_hi then Some (lo, nd)
        else if d_hi <? d_lo then Some c
        else if Z.even lo then Some (lo, nd) else Some c
    | true, _, _ => Some (lo, nd)
    | false, true, Some c => Some c
    | _, _, _ => None
    end.

(** The shortest digits that round to [x], trying [k], [k + 1], ... *)
Fixpoint shortest (x : Z) (k : Z) (fuel : nat) : option (Z * Z * Z) :=
  match fuel with
  | O => None
  | S fuel' =>
      match digits_of_length x k with
      | Some (s, n) => Some (s, k, n)
      | None => shortest x (k + 1) fuel'
      end
  end.

(** Number::toString of the Number nearest to an integer: the decimal
    digits up to 2^53, where every integer is a Number; beyond, the
    shortest digits that round to the Number, followed by zeros below
    10^21 and in exponent form from there on; [Infinity] from 2^1024. *)
Definition Number_toString (v : Z) : string :=
  if Z.abs v <=? 2 ^ 53 then Z_to_string v
  else
    let sign := if v <? 0 then "-" else EmptyString in
    let x := nearest_double (Z.abs v) in
    if 2 ^ 1024 <=? x then sign ++ "Infinity"
    else
      match shortest x 1 17 with
      | Some (s, k, n) =>
          let ds := Z_to_string s in
          if n <=? 21 then sign ++ ds ++ zeros (Z.to_nat (n - k))
          else
            match ds with
            | String d rest =>
                sign ++ String d (if k =? 1 then EmptyString else "." ++ rest)
                     ++ "e+" ++ Z_to_string (n - 1)
            | EmptyString => EmptyString
            end
      | None => sign ++ Z_to_string x
      end.

(** ToString of a value, as string concatenation coerces its operand.
    An object parsed from JSON prints as [[object Object]] through
    [Object.prototype.toString]; one that shadows [toString] with an own
    (non-callable) property cannot be converted, a TypeError ([None]).
    An array joins its items with commas, [null] and [undefined] printing
    as the empty string. *)
Fixpoint ToString (v : JsValue) : option string :=
  match v with
  | JUndefined => Some "undefined"
  | JNull => Some "null"
  | JBool true => Some "true"
  | JBool false => Some "false"
  | JNumber n => Some (Number_toString n)
  | JString s => Some s
  | JObject fields =>
      if has_own "toString" fields then None else Some "[object Object]"
  | JArray items =>
      let item (x : JsValue) : option string :=
        if nullish x then Some EmptyString else ToString x in
      (fix join (l : list JsValue) : option string :=
         match l with
         | [] => Some EmptyString
         | [x] => item x
         | x :: rest =>
             match item x, join rest with
             | Some a, Some b => Some (a ++ "," ++ b)
             | _, _ => None
             end
         end) items
  end.

(** [prefix + v] for a string [prefix]. *)
Definition string_plus (prefix : string) (v : JsValue) : option string :=
  option_map (fun s => prefix ++ s) (ToString v).

(** [s.split(sep)] for a one-character separator. *)
Fixpoint split (sep : ascii) (s : string) : list string :=
  match s with
  | EmptyString => [EmptyString]
  | String c rest =>
      if Ascii.eqb c sep then EmptyString :: split sep rest
      else match split sep rest with
           | [] => [String c EmptyString]
           | w :: ws => String c w :: ws
           end
  end.

(** [items.join(sep)] *)
Definition join (sep : string) (items : list string) : string :=
  String.concat sep items.

(** [items.includes(s)] *)
Definition includes (items : list string) (s : string) : bool :=
  existsb (String.eqb s) items.

(** [Number.MAX_SAFE_INTEGER], 2^53 - 1. *)
Definition MAX_SAFE_INTEGER : Z := 9007199254740991.

(** [BigNumber.prototype.toNumber] of ethers v5, the library the handler
    imports: the value as a JavaScript number, and an overflow fault
    ([None]) when it does not fit the safe-integer range. *)
Definition BigNumber_toNumber (v : Z) : option Z :=
  if Z.abs v <=? MAX_SAFE_INTEGER then Some v else None.

End Js.

(* ================================================================= *)
(** ** UTF-8, as [TextDecoder] reads it and the response writes it *)

Module Utf8.

Local Open Scope N_scope.

(** The decoder is the UTF-8 decoder of the WHATWG Encoding Standard,
    which [TextDecoder] runs, in its replacement (non-fatal) mode. *)

(** U+FFFD, what the decoder puts in place of a malformed sequence. *)
Definition REPLACEMENT : N := 0xFFFD.

(** U+FEFF, the byte order mark. *)
Definition BOM : N := 0xFEFF.

(** The state of the Encoding Standard's UTF-8 decoder. *)
Record DecoderState : Type := {
  code_point : N;
  bytes_seen : N;
  bytes_needed : N;
  lower_boundary : N;
  upper_boundary : N
}.

Definition initial : DecoderState :=
  {| code_point := 0; bytes_seen := 0; bytes_needed := 0;
     lower_boundary := 0x80; upper_boundary := 0xBF |}.

(** A byte read while no sequence is open: the code points emitted and
    the next state. *)
Definition lead (b : N) : list N * DecoderState :=
  if b <=? 0x7F then ([b], initial)
  else if (0xC2 <=? b) && (b <=? 0xDF) then
    ([], {| code_point := N.land b 0x1F; bytes_seen := 0; bytes_needed := 1;
            lower_boundary := 0x80; upper_boundary := 0xBF |})
  else if (0xE0 <=? b) && (b <=? 0xEF) then
    ([], {| code_point := N.land b 0xF; bytes_seen := 0; bytes_needed := 2;
            lower_boundary := if b =? 0xE0 then 0xA0 else 0x80;
            upper_boundary := if b =? 0xED then 0x9F else 0xBF |})
  else if (0xF0 <=? b) && (b <=? 0xF4) then
    ([], {| code_point := N.land b 0x7; bytes_seen := 0; bytes_needed := 3;
            lower_boundary := if b =? 0xF0 then 0x90 else 0x80;
            upper_boundary := if b =? 0xF4 then 0x8F else 0xBF |})
  else ([REPLACEMENT], initial).

(** One byte through the decoder.  A byte outside the boundaries of the open
    sequence ends it with U+FFFD and is then read afresh. *)
Definition step (st : DecoderState) (b : N) : list N * DecoderState :=
  if bytes_needed st =? 0 then lead b
  else if (lower_boundary st <=? b) && (b <=? upper_boundary st) then
    let cp := N.lor (N.shiftl (code_point st) 6) (N.land b 0x3F) in
    let seen := bytes_seen st + 1 in
    if seen =? bytes_needed st then ([cp], initial)
    else ([], {| code_point := cp; bytes_seen := seen;
                 bytes_needed := bytes_needed st;
                 lower_boundary := 0x80; upper_boundary := 0xBF |})
  else let (out, st') := lead b in (REPLACEMENT :: out, st').

(** The decoder over a whole input: at the end of the input an open
    sequence is one more U+FFFD. *)
Fixpoint run (st : DecoderState) (bytes : list byte) : list N :=
  match bytes with
  | [] => if bytes_needed st =? 0 then [] else [REPLACEMENT]
  | b :: rest =>
      let (out, st') := step st (Byte.to_N b) in
      out ++ run st' rest
  end.

(** A leading byte order mark is not part of the text. *)
Definition strip_bom (cps : list N) : list N :=
  match cps with
  | c :: rest => if c =? BOM then rest else cps
  | [] => []
  end.

(** [new TextDecoder().decode(value)]: every call decodes its argument
    as a complete input (no [stream] option is passed). *)
Definition decode (value : list byte) : list N :=
  strip_bom (run initial value).

Definition byte_of_N (n : N) : byte :=
  match Byte.of_N n with
  | Some b => b
  | None => x00
  end.

(** The UTF-8 encoding of a code point. *)
Definition encode_code_point (c : N) : list byte :=
  if c <=? 0x7F then [byte_of_N c]
  else if c <=? 0x7FF then
    [byte_of_N (N.lor 0xC0 (N.shiftr c 6));
     byte_of_N (N.lor 0x80 (N.land c 0x3F))]
  else if c <=? 0xFFFF then
    [byte_of_N (N.lor 0xE0 (N.shiftr c 12));
     byte_of_N (N.lor 0x80 (N.land (N.shiftr c 6) 0x3F));
     byte_of_N (N.lor 0x80 (N.land c 0x3F))]
  else
    [byte_of_N (N.lor 0xF0 (N.shiftr c 18));
     byte_of_N (N.lor 0x80 (N.land (N.shiftr c 12) 0x3F));
     byte_of_N (N.lor 0x80 (N.land (N.shiftr c 6) 0x3F));
     byte_of_N (N.lor 0x80 (N.land c 0x3F))].

(** The bytes a text is written as. *)
Definition encode (text : list N) : list byte :=
  flat_map encode_code_point text.



End Utf8.

(* ================================================================= *)
(** ** Completions and the trace monad *)

Module Run.

(** How a block of statements ends: it falls through with a value, the
    handler [return]s, or an exception is on its way to the enclosing
    [catch]. *)
Inductive Completion (A : Type) : Type :=
| Normal (a : A)
| Return
| Throw.

Arguments Normal {A} a.
Arguments Return {A}.
Arguments Throw {A}.

Section Trace.

Variable E : Type.

(** A computation: the events it emitted, oldest first, and how it
    ended. *)
Definition M (A : Type) : Type := (list E * Completion A)%type.

Definition ret {A} (a : A) : M A := ([], Normal a).

Definition bind {A B} (m : M A) (f : A -> M B) : M B :=
  match m with
  | (t, Normal a) => let (t', c) := f a in ((t ++ t')%list, c)
  | (t, Return) => (t, Return)
  | (t, Throw) => (t, Throw)
  end.

Definition emit (e : E) : M unit := ([e], Normal tt).

(** [return;] *)
Definition return_ {A} : M A := ([], Return).

(** [throw] *)
Definition throw {A} : M A := ([], Throw).

(** [try { body } catch (err) { handler }] *)
Definition try_catch {A} (body handler : M A) : M A :=
  match body with
  | (t, Throw) => let (t', c) := handler in ((t ++ t')%list, c)
  | _ => body
  end.

(** A value that may have raised. *)
Definition lift {A} (o : option A) : M A :=
  match o with
  | Some a => ret a
  | None => throw
  end.

(** [if (cond) { block }] *)
Definition when (cond : bool) (block : M unit) : M unit :=
  if cond then block else ret tt.

(** The computation does not end with an exception on its way out. *)
Definition contained {A} (m : M A) : Prop := snd m <> Throw.

End Trace.

Arguments ret {E A} a.
Arguments bind {E A B} m f.
Arguments emit {E} e.
Arguments return_ {E A}.
Arguments throw {E A}.
Arguments try_catch {E A} body handler.
Arguments lift {E A} o.
Arguments when {E} cond block.
Arguments contained {E A} m.

End Run.

Declare Scope run_scope.
Delimit Scope run_scope with run.
Notation "x <- m ;; k" := (Run.bind m (fun x => k))
  (at level 61, m at next level, right associativity) : run_scope.
Notation "m ;; k" := (Run.bind m (fun _ => k))
  (at level 61, right associativity) : run_scope.

(* ================================================================= *)
(** ** The handler of api/chat.js *)

Module Chat.

Import Js Run.
Local Open Scope run_scope.

(* ----------------------------------------------------------------- *)
(** *** The request, the collaborators and the calls *)

(** The request as the handler reads it: [req.method],
    [req.headers.origin] and [req.body]. *)
Record Request : Type := {
  method : string;
  origin : option string;
  body : JsValue
}.

(** The argument of the one [fetch] call: the bearer credential and the
    object that is stringified into the body. *)
Record FetchRequest : Type := {
  url : string;
  authorization : string;
  payload : JsValue
}.

(** How the upstream body ends: [reader.read()] reports [done], or it
    rejects. *)
Inductive StreamEnd : Type := Done | ReadFails.

(** The body of the upstream response: the chunks it delivers when it
    is read, in order, and how it ends after them.  A body that never
    ends is no [Stream]. *)
Record Stream : Type := {
  chunks : list (list byte);
  ending : StreamEnd
}.

(** The provider's response: its status, its body if it has one, and
    what [text()] resolves to ([None] when it rejects). *)
Record OaResp : Type := {
  status : Z;
  oa_body : option Stream;
  text : option string
}.

(** [oaResp.ok], a status in the range 200-299. *)
Definition ok (r : OaResp) : bool := (200 <=? status r) && (status r <=? 299).

(** [!oaResp.ok || !oaResp.body] *)
Definition refused (resp : OaResp) : bool :=
  negb (ok resp) || match oa_body resp with Some _ => false | None => true end.

(** [oaResp.body.getReader()].  [fetch] is the one of node-fetch (line 2
    of the source), and the body of its responses is a Node.js Readable
    stream, which has no [getReader]: whatever the body holds, the call
    raises a TypeError ([None]) and there is no reader to read from. *)
Definition getReader (body : Stream) : option Stream := None.

(** What the handler talks to.  A call that throws (or whose promise
    rejects) answers [None], a constructor that throws [false];
    [res_write n] tells whether the [n]-th [res.write] of the request
    goes through ([false]: it throws). *)
Record World : Type := {
  ALLOWED_ORIGINS : option string;
  OPENAI_API_KEY : option string;
  RPC_URL : option string;
  verifyMessage : string -> JsValue -> option string;
  JsonRpcProvider : string -> bool;
  Contract : JsValue -> bool;
  ownerOf : JsValue -> JsValue -> option string;
  balanceOf : JsValue -> JsValue -> option Z;
  fetch : FetchRequest -> option OaResp;
  res_write : nat -> bool
}.

Inductive Level : Type := LError | LWarn.

(** The calls the handler makes, on the response object, the console and
    its collaborators. *)
Inductive Event : Type :=
| ESetHeader (name value : string)
| EStatus (code : Z)
| EJson (payload : JsValue)
| EWrite (text : list N) (went_through : bool)
| EEnd
| EConsole (level : Level) (message : string)
| EVerifyMessage (message : string) (signature : JsValue)
| ENewProvider (url : string)
| ENewContract (address : JsValue)
| EOwnerOf (contract tokenId : JsValue)
| EBalanceOf (contract address : JsValue)
| EFetch (request : FetchRequest)
| EText
| ERead.

Definition Handler (A : Type) : Type := M Event A.

(* ----------------------------------------------------------------- *)
(** *** Constants and replies *)

Definition ALLOWED_DEFAULT : list string :=
  [ "https://cyberpetsreboot.xyz";
    "https://digitalknuckles.github.io";
    "http://localhost:3000" ].

(** An environment variable is a string or undefined; [v || d]. *)
Definition env_or (v : option string) (d : string) : string :=
  match v with
  | Some s => if (s =? EmptyString)%string then d else s
  | None => d
  end.

(** An environment variable is truthy: set, and not the empty string. *)
Definition env_set (v : option string) : bool :=
  match v with
  | Some s => negb (s =? EmptyString)%string
  | None => false
  end.

(** [process.env.RPC_URL || 'https://cloudflare-eth.com'] *)
Definition rpc_url (w : World) : string :=
  env_or (RPC_URL w) "https://cloudflare-eth.com".

(** [{ error: message }] *)
Definition error_object (message : string) : JsValue :=
  JObject [("error", JString message)].

Definition denied : JsValue :=
  error_object "NFT ownership check failed - access denied".

(** [{ error: 'OpenAI request failed', status: oaResp.status, body: text }],
    [text] being what [oaResp.text()] resolved to, or ['<no-body>']. *)
Definition upstream_error (resp : OaResp) : JsValue :=
  JObject [ ("error", JString "OpenAI request failed");
            ("status", JNumber (status resp));
            ("body", JString match text resp with
                             | Some t => t
                             | None => "<no-body>"
                             end) ].

(** [return res.status(code).json(payload);] *)
Definition reply {A} (code : Z) (payload : JsValue) : Handler A :=
  emit (EStatus code) ;; emit (EJson payload) ;; return_.

(* ----------------------------------------------------------------- *)
(** *** The handler, block by block *)

(** ---------- CORS ---------- *)
Definition cors (w : World) (req : Request) : Handler unit :=
  let allowedOrigins :=
    split "," (env_or (ALLOWED_ORIGINS w) (join "," ALLOWED_DEFAULT)) in
  when (match origin req with
        | Some o => negb (o =? EmptyString)%string && includes allowedOrigins o
        | None => false
        end)
       (emit (ESetHeader "Access-Control-Allow-Origin"
                         (match origin req with Some o => o | None => EmptyString end))) ;;
  emit (ESetHeader "Access-Control-Allow-Methods" "GET,POST,OPTIONS") ;;
  emit (ESetHeader "Access-Control-Allow-Headers" "Content-Type,Authorization") ;;
  when (method req =? "OPTIONS")%string
       (emit (EStatus 200) ;; emit EEnd ;; return_).

(** The fields destructured from the body. *)
Record Fields : Type := {
  address : JsValue;
  signature : JsValue;
  input : JsValue;
  context : JsValue
}.

(** [const { address, signature, input, context } = value]: a TypeError
    ([None]) when [value] is [null] or [undefined]. *)
Definition destructure (value : JsValue) : option Fields :=
  match get value "address", get value "signature",
        get value "input", get value "context" with
  | Some address, Some signature, Some input, Some context =>
      Some {| address := address; signature := signature;
              input := input; context := context |}
  | _, _, _, _ => None
  end.

(** [const { address, signature, input, context } = req.body || {};] *)
Definition destructured (req : Request) : option Fields :=
  destructure (js_or (body req) (JObject [])).

(** The fields of the request, as the destructuring binds them; it
    never throws, so the second case never applies. *)
Definition fields (req : Request) : Fields :=
  match destructured req with
  | Some f => f
  | None => {| address := JUndefined; signature := JUndefined;
               input := JUndefined; context := JUndefined |}
  end.

(** ---------- Basic checks ---------- *)
Definition basic_checks (req : Request) : Handler Fields :=
  when (negb (method req =? "POST")%string)
       (reply 405 (error_object "Method not allowed")) ;;
  f <- lift (destructured req) ;;
  when (negb (truthy (address f)) || negb (truthy (signature f))
        || negb (truthy (input f)))
       (reply 400 (error_object "Missing required fields: address, signature, input")) ;;
  ret f.

(** ---------- ENV checks ---------- ; the value is [RPC_URL]. *)
Definition env_checks (w : World) : Handler string :=
  when (negb (env_set (OPENAI_API_KEY w)))
       (emit (EConsole LError "OPENAI_API_KEY missing") ;;
        reply 500 (error_object "Server misconfigured (missing OPENAI_API_KEY)")) ;;
  let RPC_URL := rpc_url w in
  when (RPC_URL =? EmptyString)%string
       (reply 500 (error_object "Server misconfigured (missing RPC_URL)")) ;;
  ret RPC_URL.

Definition MESSAGE_PREFIX : string := "I am requesting an AI response: ".

(** ---------- Verify signature (anti-spoof) ---------- *)
Definition verify_signature (w : World) (f : Fields) : Handler unit :=
  try_catch
    (expectedMessage <- lift (string_plus MESSAGE_PREFIX (input f)) ;;
     emit (EVerifyMessage expectedMessage (signature f)) ;;
     recovered <- lift (verifyMessage w expectedMessage (signature f)) ;;
     claimed <- lift (call_toLowerCase (address f)) ;;
     when (negb (toLowerCase recovered =? claimed)%string)
          (reply 401 (error_object "Signature does not match address")))
    (emit (EConsole LError "signature verify failed") ;;
     reply 400 (error_object "Invalid signature")).

(** [(context && context.nft_contract) || null], evaluated; the read is
    made only on a truthy [context]. *)
Definition eval_nftContract (f : Fields) : option JsValue :=
  option_map (fun v => js_or v JNull)
             (js_and_then (context f) (get (context f) "nft_contract")).

(** [(context && context.nft_token_id) ?? null], evaluated. *)
Definition eval_nftTokenId (f : Fields) : option JsValue :=
  option_map (fun v => js_coalesce v JNull)
             (js_and_then (context f) (get (context f) "nft_token_id")).

(** The constants [nftContract] and [nftTokenId]; neither evaluation
    throws, so the second case never applies. *)
Definition nftContract (f : Fields) : JsValue :=
  match eval_nftContract f with
  | Some v => v
  | None => JNull
  end.

Definition nftTokenId (f : Fields) : JsValue :=
  match eval_nftTokenId f with
  | Some v => v
  | None => JNull
  end.

(** The first ownership step, [ownerOf(tokenId)]; the value is [owns]. *)
Definition owner_step (w : World) (contract tokenId address : JsValue)
  : Handler bool :=
  if negb (nullish tokenId) then
    try_catch
      (emit (EOwnerOf contract tokenId) ;;
       owner <- lift (ownerOf w contract tokenId) ;;
       if negb (owner =? EmptyString)%string then
         claimed <- lift (call_toLowerCase address) ;;
         ret (toLowerCase owner =? claimed)%string
       else ret false)
      (emit (EConsole LWarn "ownerOf check failed, falling back to balanceOf") ;;
       ret false)
  else ret false.

(** The second ownership step, [balanceOf(address)], run when the first
    left [owns] false. *)
Definition balance_step (w : World) (contract address : JsValue)
  : Handler bool :=
  try_catch
    (emit (EBalanceOf contract address) ;;
     bal <- lift (balanceOf w contract address) ;;
     n <- lift (BigNumber_toNumber bal) ;;
     ret (0 <? n))
    (emit (EConsole LWarn "balanceOf check failed") ;;
     ret false).

(** The ownership check once [nftContract] and [nftTokenId] are bound. *)
Definition entitlement (w : World) (RPC_URL : string)
  (nftContract nftTokenId address : JsValue) : Handler unit :=
  when (negb (truthy nftContract))
       (reply 400 (error_object "Missing nft_contract in context")) ;;
  try_catch
    (emit (ENewProvider RPC_URL) ;;
     when (negb (JsonRpcProvider w RPC_URL)) throw ;;
     emit (ENewContract nftContract) ;;
     when (negb (Contract w nftContract)) throw ;;
     owns <- owner_step w nftContract nftTokenId address ;;
     owns <- (if negb owns then balance_step w nftContract address
              else ret owns) ;;
     when (negb owns)
          (reply 403 denied))
    (emit (EConsole LError "ownership verification error") ;;
     reply 500 (error_object "Failed to verify ownership")).

(** ---------- On-chain ownership check ---------- *)
Definition ownership_check (w : World) (RPC_URL : string) (f : Fields)
  : Handler unit :=
  nftContract <- lift (eval_nftContract f) ;;
  nftTokenId <- lift (eval_nftTokenId f) ;;
  entitlement w RPC_URL nftContract nftTokenId (address f).

Definition openaiBody (input : JsValue) : JsValue :=
  JObject [ ("model", JString "gpt-4o-mini");
            ("messages",
             JArray [ JObject [("role", JString "system");
                               ("content", JString "You are a helpful assistant.")];
                      JObject [("role", JString "user"); ("content", input)] ]);
            ("stream", JBool true) ].

Definition openai_request (w : World) (input : JsValue) : FetchRequest :=
  {| url := "https://api.openai.com/v1/chat/completions";
     authorization := "Bearer " ++ match OPENAI_API_KEY w with
                                   | Some key => key
                                   | None => "undefined"
                                   end;
     payload := openaiBody input |}.

(** [res.write(chunk)], the [n]-th of the request. *)
Definition res_write_call (w : World) (n : nat) (chunk : list N) : Handler unit :=
  emit (EWrite chunk (res_write w n)) ;;
  when (negb (res_write w n)) throw.

(** The helper [write]: a failed [res.write] is logged and dropped. *)
Definition write (w : World) (n : nat) (chunk : list N) : Handler unit :=
  try_catch (res_write_call w n chunk)
            (emit (EConsole LWarn "res.write failed")).

(** The read loop, [n] writes into the response. *)
Fixpoint read_loop (w : World) (n : nat) (pending : list (list byte))
  (ending : StreamEnd) : Handler unit :=
  match pending with
  | [] =>
      emit ERead ;;
      match ending with
      | Done => ret tt
      | ReadFails => throw
      end
  | value :: rest =>
      emit ERead ;;
      let chunkText := Utf8.decode value in
      write w n chunkText ;;
      read_loop w (S n) rest ending
  end.

(** The termination marker, two line feeds. *)
Definition TERMINATOR : list N := [10%N; 10%N].

(** ---------- Proxy to OpenAI with streaming ---------- *)
Definition proxy (w : World) (input : JsValue) : Handler unit :=
  try_catch
    (emit (EFetch (openai_request w input)) ;;
     oaResp <- lift (fetch w (openai_request w input)) ;;
     when (refused oaResp)
          (emit EText ;;
           emit (EConsole LError "OpenAI responded with error") ;;
           reply 500 (upstream_error oaResp)) ;;
     emit (ESetHeader "Content-Type" "text/event-stream; charset=utf-8") ;;
     emit (ESetHeader "Cache-Control" "no-cache, no-transform") ;;
     emit (ESetHeader "Connection" "keep-alive") ;;
     body <- lift (oa_body oaResp) ;;
     reader <- lift (getReader body) ;;
     read_loop w 0 (chunks reader) (ending reader) ;;
     res_write_call w (List.length (chunks reader)) TERMINATOR ;;
     emit EEnd ;;
     return_)
    (emit (EConsole LError "streaming error") ;;
     emit (EStatus 500) ;;
     emit (EJson (error_object "Internal server error")) ;;
     return_).

(** Everything the handler does before the ownership check. *)
Definition admission (w : World) (req : Request) : Handler (string * Fields) :=
  cors w req ;;
  f <- basic_checks req ;;
  RPC_URL <- env_checks w ;;
  verify_signature w f ;;
  ret (RPC_URL, f).

(** [export default async function handler(req, res)] *)
Definition handler (w : World) (req : Request) : Handler unit :=
  a <- admission w req ;;
  ownership_check w (fst a) (snd a) ;;
  proxy w (input (snd a)).

(* ----------------------------------------------------------------- *)
(** *** What the caller sees *)

(** The response object: [res.statusCode] and the headers set so far, the
    head as it went out (status line and headers, once sent), the body
    bytes written after it, the document of a [res.json] reply, and
    whether the response is finished. *)
Record Response : Type := {
  statusCode : Z;
  headers : list (string * string);
  head : option (Z * list (string * string));
  received : list byte;
  document : option JsValue;
  finished : bool
}.

(** The response object as the handler receives it. *)
Definition fresh : Response :=
  {| statusCode := 200; headers := []; head := None; received := [];
     document := None; finished := false |}.

Definition headersSent (r : Response) : bool :=
  match head r with
  | Some _ => true
  | None => false
  end.

Definition set_header (name value : string) (hs : list (string * string))
  : list (string * string) :=
  (filter (fun h => negb (fst h =? name)%string) hs ++ [(name, value)])%list.

(** The head goes out with the first byte of the response. *)
Definition flush (r : Response) : Response :=
  match head r with
  | Some _ => r
  | None =>
      {| statusCode := statusCode r; headers := headers r;
         head := Some (statusCode r, headers r); received := received r;
         document := document r; finished := finished r |}
  end.

(** The effect of one call on the response.  Once the head is out,
    [setHeader] and [json] throw and change nothing; a [write] that threw
    delivered nothing. *)
Definition apply (r : Response) (e : Event) : Response :=
  match e with
  | ESetHeader name value =>
      if headersSent r then r
      else {| statusCode := statusCode r;
              headers := set_header name value (headers r);
              head := head r; received := received r;
              document := document r; finished := finished r |}
  | EStatus code =>
      {| statusCode := code; headers := headers r; head := head r;
         received := received r; document := document r;
         finished := finished r |}
  | EJson payload =>
      if headersSent r then r
      else
        let hs := set_header "Content-Type" "application/json; charset=utf-8"
                             (headers r) in
        {| statusCode := statusCode r; headers := hs;
           head := Some (statusCode r, hs); received := received r;
           document := Some payload; finished := true |}
  | EWrite text true =>
      if finished r then r
      else
        let r' := flush r in
        {| statusCode := statusCode r'; headers := headers r';
           head := head r';
           received := (received r' ++ Utf8.encode text)%list;
           document := document r'; finished := false |}
  | EEnd =>
      let r' := flush r in
      {| statusCode := statusCode r'; headers := headers r'; head := head r';
         received := received r'; document := document r'; finished := true |}
  | _ => r
  end.

Definition replay_from (r : Response) (t : list Event) : Response :=
  fold_left apply t r.

(** The response after a trace. *)
Definition replay (t : list Event) : Response := replay_from fresh t.

(** The status line the caller got, if any. *)
Definition http_status (t : list Event) : option Z :=
  option_map fst (head (replay t)).

(** The caller got a complete JSON reply: this status, this document. *)
Definition answered (t : list Event) (code : Z) (payload : JsValue) : Prop :=
  http_status t = Some code /\ document (replay t) = Some payload
  /\ finished (replay t) = true.

(** Nothing went out yet and the status is still the default. *)
Definition unsent (r : Response) : Prop :=
  statusCode r = 200 /\ head r = None /\ received r = [] /\
  document r = None /\ finished r = false.

(* ----------------------------------------------------------------- *)
(** *** Kinds of calls *)

(** Calls that leave the response as it is, or only set a header. *)
Definition silent (e : Event) : bool :=
  match e with
  | EStatus _ | EJson _ | EWrite _ _ | EEnd => false
  | _ => true
  end.

Definition is_header (e : Event) : bool :=
  match e with
  | ESetHeader _ _ => true
  | _ => false
  end.

Definition is_streaming_header (e : Event) : bool :=
  match e with
  | ESetHeader name _ =>
      (name =? "Content-Type")%string || (name =? "Cache-Control")%string
      || (name =? "Connection")%string
  | _ => false
  end.

(** The three headers that commit the response to streaming. *)
Definition streaming_headers : list Event :=
  [ ESetHeader "Content-Type" "text/event-stream; charset=utf-8";
    ESetHeader "Cache-Control" "no-cache, no-transform";
    ESetHeader "Connection" "keep-alive" ].

(** A call that leaves the process: signature recovery, the read-node,
    the chat provider. *)
Definition is_outbound (e : Event) : bool :=
  match e with
  | EVerifyMessage _ _ | ENewProvider _ | ENewContract _
  | EOwnerOf _ _ | EBalanceOf _ _ | EFetch _ | EText | ERead => true
  | _ => false
  end.

Definition is_ownerOf (e : Event) : bool :=
  match e with
  | EOwnerOf _ _ => true
  | _ => false
  end.

Definition is_balanceOf (e : Event) : bool :=
  match e with
  | EBalanceOf _ _ => true
  | _ => false
  end.

(** A read-node lookup. *)
Definition is_read_node_call (e : Event) : bool :=
  is_ownerOf e || is_balanceOf e.

(** Calls of the ownership steps that touch neither the response nor the
    provider. *)
Definition is_lookup (e : Event) : bool :=
  match e with
  | EOwnerOf _ _ | EBalanceOf _ _ | EConsole _ _ => true
  | _ => false
  end.

Definition is_fetch (e : Event) : bool :=
  match e with
  | EFetch _ => true
  | _ => false
  end.

Definition is_read (e : Event) : bool :=
  match e with
  | ERead => true
  | _ => false
  end.

Definition is_write (e : Event) : bool :=
  match e with
  | EWrite _ _ => true
  | _ => false
  end.

(** The calls of the read loop. *)
Definition is_stream_io (e : Event) : bool :=
  match e with
  | ERead | EWrite _ _ | EConsole _ _ => true
  | _ => false
  end.

(** Nothing before the provider call is a provider call, a read of its
    stream or a write to the caller. *)
Definition before_proxy (e : Event) : Prop :=
  is_fetch e = false /\ is_read e = false /\ is_write e = false.

(** The texts handed to [res.write], in order, delivered or not. *)
Fixpoint writes (t : list Event) : list (list N) :=
  match t with
  | [] => []
  | EWrite text _ :: rest => text :: writes rest
  | _ :: rest => writes rest
  end.

(* ----------------------------------------------------------------- *)
(** *** The vocabulary of the properties *)

(** [address], [signature] and [input] are all truthy. *)
Definition all_present (f : Fields) : bool :=
  truthy (address f) && truthy (signature f) && truthy (input f).

(** A field that is missing from the body, or the empty string. *)
Definition missing_or_empty (v : JsValue) : Prop :=
  v = JUndefined \/ v = JString EmptyString.

(** Both read-node clients could be constructed. *)
Definition clients_ok (w : World) (f : Fields) : bool :=
  JsonRpcProvider w (rpc_url w) && Contract w (nftContract f).

(** What the first ownership step decides: a token id was given, the
    lookup answered a non-empty owner, and owner and claimed address are
    the same string once lower-cased. *)
Definition owner_matches (w : World) (contract tokenId address : JsValue) : bool :=
  negb (nullish tokenId) &&
  match ownerOf w contract tokenId, call_toLowerCase address with
  | Some owner, Some claimed =>
      negb (owner =? EmptyString)%string && (toLowerCase owner =? claimed)%string
  | _, _ => false
  end.

(** What the second ownership step decides: the lookup answered a
    balance, the balance converted to a number, and the number is above
    zero. *)
Definition balance_grants (w : World) (contract address : JsValue) : bool :=
  match balanceOf w contract address with
  | Some bal =>
      match BigNumber_toNumber bal with
      | Some n => 0 <? n
      | None => false
      end
  | None => false
  end.

(** The first step positively confirmed ownership: a token id is present
    and [ownerOf] returned an owner equal to the claimed address, letter
    case aside. *)
Definition owner_confirmed (w : World) (f : Fields) : Prop :=
  nullish (nftTokenId f) = false /\
  exists owner claimed,
    ownerOf w (nftContract f) (nftTokenId f) = Some owner /\
    address f = JString claimed /\
    toLowerCase owner = toLowerCase claimed.

(** The second step positively confirmed ownership: [balanceOf] returned
    a balance greater than zero. *)
Definition balance_confirmed (w : World) (f : Fields) : Prop :=
  exists bal, balanceOf w (nftContract f) (address f) = Some bal /\ 0 < bal.

(** The handler up to the provider call: the checks of the gate. *)
Definition gate (w : World) (req : Request) : Handler (string * Fields) :=
  a <- admission w req ;;
  ownership_check w (fst a) (snd a) ;;
  ret a.

(** The request got as far as the provider call. *)
Definition reaches_provider (w : World) (req : Request) : Prop :=
  exists r, In (EFetch r) (fst (handler w req)).

End Chat.

(* ================================================================= *)
(** ** Scenarios *)

Module Scenario.

Import Js Chat.

(** A wallet, as [verifyMessage] returns it (checksummed) and as a client
    sends it (lower case); another wallet; an ERC-721 collection. *)
Definition WALLET : string := "0x52908400098527886E0F7030069857D2E4169EE7".
Definition wallet : string := "0x52908400098527886e0f7030069857d2e4169ee7".
Definition OTHER : string := "0x8617E340B3D01FA5F11F306F4090FD50E238070D".
Definition COLLECTION : JsValue :=
  JString "0xde0B295669a9FD93d5F28D9Ec85E40f4cb697BAe".

(** A world by what varies between the scenarios: the credential, what
    signature recovery returns, what the two lookups return, the
    provider's response, and which writes to the caller go through. *)
Definition world_of (key : option string) (recovered owner : option string)
  (balance : option Z) (resp : option OaResp) (writes_ok : nat -> bool) : World :=
  {| ALLOWED_ORIGINS := None;
     OPENAI_API_KEY := key;
     RPC_URL := None;
     verifyMessage := fun _ _ => recovered;
     JsonRpcProvider := fun _ => true;
     Contract := fun _ => true;
     ownerOf := fun _ _ => owner;
     balanceOf := fun _ _ => balance;
     fetch := fun _ => resp;
     res_write := writes_ok |}.

Definition post (body : JsValue) : Request :=
  {| method := "POST"; origin := Some "https://cyberpetsreboot.xyz"; body := body |}.

(** A request signed for the prompt [hello]. *)
Definition signed (address context : JsValue) : Request :=
  post (JObject [ ("address", address);
                  ("signature", JString "0x1b2c");
                  ("input", JString "hello");
                  ("context", context) ]).

(** A request that carries no signature. *)
Definition unsigned : Request :=
  post (JObject [ ("address", JString wallet); ("input", JString "hello") ]).

Definition holder_context : JsValue := JObject [("nft_contract", COLLECTION)].

Definition token_context : JsValue :=
  JObject [("nft_contract", COLLECTION); ("nft_token_id", JNumber 7)].

(** The wallet's request against the collection, and the same naming
    token 7. *)
Definition holder_request : Request := signed (JString wallet) holder_context.
Definition token_request : Request := signed (JString wallet) token_context.

(** A provider response streaming the given chunks to a normal end. *)
Definition streaming (chunks : list (list byte)) : OaResp :=
  {| status := 200;
     oa_body := Some {| chunks := chunks; ending := Done |};
     text := None |}.

Definition always : nat -> bool := fun _ => true.

(** The server has no provider credential. *)
Definition unconfigured : World :=
  world_of None (Some OTHER) None (Some 1) (Some (streaming [])) always.

(** The signature recovers to another wallet than the claimed one. *)
Definition impostor : World :=
  world_of (Some "sk-test") (Some OTHER) None (Some 1) (Some (streaming [])) always.

(** The signature cannot be decoded. *)
Definition garbled : World :=
  world_of (Some "sk-test") None None (Some 1) (Some (streaming [])) always.

(** The wallet holds one token of the collection; the provider answers
    [hi] in two chunks. *)
Definition holder : World :=
  world_of (Some "sk-test") (Some WALLET) None (Some 1)
           (Some (streaming [[x68]; [x69]])) always.

(** The wallet owns token 7 and the balance lookup would fail. *)
Definition token_owner : World :=
  world_of (Some "sk-test") (Some WALLET) (Some WALLET) None
           (Some (streaming [])) always.

(** The wallet holds nothing. *)
Definition stranger : World :=
  world_of (Some "sk-test") (Some WALLET) (Some OTHER) (Some 0)
           (Some (streaming [])) always.

(** The read-node is unreachable: both lookups fail. *)
Definition node_down : World :=
  world_of (Some "sk-test") (Some WALLET) None None (Some (streaming [])) always.

(** The collection reports a balance of 2^53 for the wallet. *)
Definition whale : World :=
  world_of (Some "sk-test") (Some WALLET) None (Some 9007199254740992)
           (Some (streaming [])) always.

(** The provider refuses the request with a 429 and a body. *)
Definition too_many : OaResp :=
  {| status := 429;
     oa_body := Some {| chunks := [[x73; x6c; x6f; x77]]; ending := Done |};
     text := Some "slow" |}.

Definition rate_limited : World :=
  world_of (Some "sk-test") (Some WALLET) None (Some 1) (Some too_many) always.

End Scenario.

(* ================================================================= *)
(** ** Reading a run *)

Module Reading.

Import Js Run Chat.

(** [allowedOrigins] of the CORS block: the configured list, or the
    default one, cut at the commas. *)
Definition allowedOrigins (w : World) : list string :=
  split "," (env_or (ALLOWED_ORIGINS w) (join "," ALLOWED_DEFAULT)).

Definition ALLOW_ORIGIN : string := "Access-Control-Allow-Origin".

(** The signature check of the handler passed: the message could be
    built, an address was recovered from the signature over it, and that
    address is the claimed one once both are lower-cased. *)
Definition verified (w : World) (f : Fields) : Prop :=
  exists expectedMessage recovered claimed,
    string_plus MESSAGE_PREFIX (input f) = Some expectedMessage /\
    verifyMessage w expectedMessage (signature f) = Some recovered /\
    address f = JString claimed /\
    toLowerCase recovered = toLowerCase claimed.

(** The signature check found another signer: recovery succeeded and the
    recovered address is not the claimed one. *)
Definition mismatched (w : World) (f : Fields) : Prop :=
  exists expectedMessage recovered claimed,
    string_plus MESSAGE_PREFIX (input f) = Some expectedMessage /\
    verifyMessage w expectedMessage (signature f) = Some recovered /\
    address f = JString claimed /\
    toLowerCase recovered <> toLowerCase claimed.

(** The request passed every check before the ownership check: a POST
    with the three fields, on a server with its credential, carrying a
    verified signature. *)
Definition admitted (w : World) (req : Request) : Prop :=
  method req = "POST" /\ all_present (fields req) = true /\
  env_set (OPENAI_API_KEY w) = true /\ verified w (fields req).

(** A call on the read-node side: constructing the provider or the
    contract object, or one of the two lookups. *)
Definition is_chain_call (e : Event) : bool :=
  match e with
  | ENewProvider _ | ENewContract _ | EOwnerOf _ _ | EBalanceOf _ _ => true
  | _ => false
  end.



(** The head went out, with a status that satisfies [P]. *)
Definition replied (P : Z -> Prop) (r : Response) : Prop :=
  exists c hs, head r = Some (c, hs) /\ P c.

(** A block that, run on a response nothing was sent on, either
    [return]s after sending the head with a status that satisfies [P], or
    goes on (or throws) with still nothing sent. *)
Definition responds {A} (P : Z -> Prop) (m : Handler A) : Prop :=
  forall r, unsent r ->
    match snd m with
    | Return => replied P (replay_from r (fst m))
    | _ => unsent (replay_from r (fst m))
    end.

(** What a status tells when it is the gate that replied. *)
Definition gate_reason (w : World) (req : Request) (c : Z) : Prop :=
  (c = 200 /\ method req = "OPTIONS") \/
  (c = 405 /\ method req <> "POST" /\ method req <> "OPTIONS") \/
  (c = 401 /\ method req = "POST" /\ mismatched w (fields req)) \/
  (c = 403 /\ admitted w req /\
   truthy (nftContract (fields req)) = true /\
   clients_ok w (fields req) = true /\
   owner_matches w (nftContract (fields req)) (nftTokenId (fields req))
                 (address (fields req)) = false /\
   balance_grants w (nftContract (fields req)) (address (fields req)) = false) \/
  (c = 400 /\ method req = "POST") \/
  (c = 500 /\ method req = "POST").

(** The calls that complete a response: [res.json] and [res.end]. *)
Definition is_closing (e : Event) : bool :=
  match e with
  | EJson _ | EEnd => true
  | _ => false
  end.

(** A block that completes the response exactly when it [return]s, and
    then with its last call. *)
Definition closes {A} (m : Handler A) : Prop :=
  match snd m with
  | Return =>
      exists pre e, fst m = (pre ++ [e])%list /\ is_closing e = true /\
                    Forall (fun e => is_closing e = false) pre
  | _ => Forall (fun e => is_closing e = false) (fst m)
  end.

(** The codes passed to [res.status], in order. *)
Definition status_calls (t : list Event) : list Z :=
  flat_map (fun e => match e with EStatus c => [c] | _ => [] end) t.

(** [console.error(...)] *)
Definition is_error_log (e : Event) : bool :=
  match e with
  | EConsole LError _ => true
  | _ => false
  end.

(** The error log agrees with the status set: a block that does not
    [return] has set no status and logged no error; one that [return]s
    has set at most one status, has logged an error if that status is
    500, and only if it is 400 or 500. *)
Definition logs {A} (m : Handler A) : Prop :=
  match snd m with
  | Return =>
      match status_calls (fst m) with
      | [] => filter is_error_log (fst m) = []
      | [c] =>
          (c = 500 -> filter is_error_log (fst m) <> []) /\
          (filter is_error_log (fst m) <> [] -> c = 400 \/ c = 500)
      | _ => False
      end
  | _ => status_calls (fst m) = [] /\ filter is_error_log (fst m) = []
  end.

(** The head of a response carries a header. *)
Definition has_header (r : Response) (name value : string) : Prop :=
  exists code hs, head r = Some (code, hs) /\ In (name, value) hs.

End Reading.

(* ================================================================= *)
(** ** The states of the decoder *)

Module Decoding.

Import Utf8.
Local Open Scope N_scope.


End Decoding.

(* ================================================================= *)
(** ** Further scenarios *)

Module Cases.

Import Js Chat.

(** The wallet's request naming token 0 of the collection. *)
Definition token_zero_request : Request :=
  Scenario.signed (JString Scenario.wallet)
    (JObject [("nft_contract", Scenario.COLLECTION); ("nft_token_id", JNumber 0)]).

(** The provider cannot be reached. *)
Definition offline : World :=
  Scenario.world_of (Some "sk-test") (Some Scenario.WALLET) None (Some 1) None
                    Scenario.always.

End Cases.

(* ================================================================= *)
(** ** Properties *)

Import Js Run Chat.

(** *** The trace monad *)

Lemma bind_normal_inv {E A B} (m : M E A) (f : A -> M E B) t (b : B) :
  bind m f = (t, Normal b) ->
  exists t1 a t2, m = (t1, Normal a) /\ f a = (t2, Normal b) /\ t = (t1 ++ t2)%list.
Proof.
  unfold bind. destruct m as [t1 [a| |]]; try discriminate.
  destruct (f a) as [t2 c] eqn:Hf. intros H. inversion H; subst.
  exists t1, a, t2. auto.
Qed.

(** *** Replaying a trace *)

Lemma replay_from_app r t1 t2 :
  replay_from r (t1 ++ t2) = replay_from (replay_from r t1) t2.
Proof. unfold replay_from. apply fold_left_app. Qed.

Lemma apply_silent r e : silent e = true -> unsent r -> unsent (apply r e).
Proof.
  unfold unsent. intros He (Hs & Hh & Hr & Hd & Hf).
  destruct e; try discriminate; simpl; auto.
  unfold headersSent. rewrite Hh. simpl. auto.
Qed.

Lemma replay_from_silent t : forall r,
  Forall (fun e => silent e = true) t -> unsent r -> unsent (replay_from r t).
Proof.
  induction t as [|e t IH]; intros r Ht Hr; simpl; [exact Hr|].
  inversion Ht; subst. apply IH; [assumption|]. now apply apply_silent.
Qed.

Lemma unsent_fresh : unsent fresh.
Proof. repeat split. Qed.

(** A trace of silent calls closed by [res.status(code).json(payload)] is
    a complete JSON reply with that status. *)
Lemma answered_reply t code payload :
  Forall (fun e => silent e = true) t ->
  answered (t ++ [EStatus code; EJson payload]) code payload.
Proof.
  intros Ht. unfold answered, http_status, replay.
  rewrite replay_from_app.
  pose proof (replay_from_silent t fresh Ht unsent_fresh) as (Hs & Hh & Hr & Hd & Hf).
  set (r := replay_from fresh t) in *.
  simpl. unfold headersSent. simpl. rewrite Hh. simpl. auto.
Qed.

(** *** The stages before the ownership check *)

Ltac run :=
  cbn [bind ret emit return_ throw try_catch lift when reply fst snd app
       negb orb andb] in *.

Lemma header_silent e : is_header e = true -> silent e = true.
Proof. destruct e; simpl; congruence. Qed.

Lemma header_not_outbound e : is_header e = true -> is_outbound e = false.
Proof. destruct e; simpl; congruence. Qed.

Lemma headers_silent t :
  Forall (fun e => is_header e = true) t -> Forall (fun e => silent e = true) t.
Proof. apply Forall_impl. exact header_silent. Qed.

(** Past the pre-flight, the CORS block only sets headers. *)
Lemma cors_headers w req :
  (method req =? "OPTIONS")%string = false ->
  exists hs, cors w req = (hs, Normal tt) /\ Forall (fun e => is_header e = true) hs.
Proof.
  intros Hm. unfold cors. rewrite Hm.
  destruct (match origin req with
            | Some o => _
            | None => false
            end); simpl; eexists; split; try reflexivity;
    repeat constructor.
Qed.

(** The guards of the source keep every property read off [null] and
    [undefined]: none of the three evaluations throws. *)
Lemma get_guarded v key : nullish v = false -> exists x, get v key = Some x.
Proof. destruct v; try discriminate; cbn; eauto. Qed.

Lemma destructured_fields req : destructured req = Some (fields req).
Proof.
  unfold fields. destruct (destructured req) as [f|] eqn:H; [reflexivity|].
  exfalso. unfold destructured, destructure in H.
  assert (Hb : nullish (js_or (body req) (JObject [])) = false).
  { unfold js_or. destruct (body req) as [| |[|]|n|s|items|kvs]; try reflexivity.
    - cbn. now destruct (n =? 0).
    - cbn. now destruct (s =? EmptyString)%string. }
  destruct (get_guarded _ "address" Hb) as (a & Ha).
  destruct (get_guarded _ "signature" Hb) as (g & Hg).
  destruct (get_guarded _ "input" Hb) as (i & Hi).
  destruct (get_guarded _ "context" Hb) as (c & Hc).
  rewrite Ha, Hg, Hi, Hc in H. discriminate.
Qed.

Lemma truthy_not_nullish v : truthy v = true -> nullish v = false.
Proof. destruct v; try discriminate; reflexivity. Qed.

Lemma eval_nftContract_value f : eval_nftContract f = Some (nftContract f).
Proof.
  unfold nftContract. destruct (eval_nftContract f) as [v|] eqn:H; [reflexivity|].
  exfalso. unfold eval_nftContract, js_and_then in H.
  destruct (truthy (context f)) eqn:Hc; [|discriminate].
  destruct (get_guarded _ "nft_contract" (truthy_not_nullish _ Hc)) as (x & Hx).
  rewrite Hx in H. discriminate.
Qed.

Lemma eval_nftTokenId_value f : eval_nftTokenId f = Some (nftTokenId f).
Proof.
  unfold nftTokenId. destruct (eval_nftTokenId f) as [v|] eqn:H; [reflexivity|].
  exfalso. unfold eval_nftTokenId, js_and_then in H.
  destruct (truthy (context f)) eqn:Hc; [|discriminate].
  destruct (get_guarded _ "nft_token_id" (truthy_not_nullish _ Hc)) as (x & Hx).
  rewrite Hx in H. discriminate.
Qed.

(** The ownership check, its two constants bound. *)
Lemma ownership_check_eq w rpc f :
  ownership_check w rpc f
  = entitlement w rpc (nftContract f) (nftTokenId f) (address f).
Proof.
  unfold ownership_check.
  rewrite eval_nftContract_value, eval_nftTokenId_value.
  cbn [lift ret bind app]. now destruct (entitlement _ _ _ _ _).
Qed.

Lemma basic_checks_post req :
  method req = "POST" ->
  basic_checks req =
  if all_present (fields req) then ([], Normal (fields req))
  else ([EStatus 400;
         EJson (error_object "Missing required fields: address, signature, input")],
        Return).
Proof.
  intros Hm. unfold basic_checks, all_present. rewrite Hm, destructured_fields.
  change (negb ("POST" =? "POST")%string) with false.
  cbn [when ret lift bind].
  set (f := fields req).
  destruct (truthy (address f)), (truthy (signature f)), (truthy (input f));
    reflexivity.
Qed.

Lemma basic_checks_normal req t f :
  basic_checks req = (t, Normal f) ->
  method req = "POST" /\ t = [] /\ f = fields req /\ all_present f = true.
Proof.
  unfold basic_checks. rewrite destructured_fields. intros H.
  destruct (method req =? "POST")%string eqn:Hm; [|discriminate].
  apply String.eqb_eq in Hm. split; [assumption|].
  cbn [negb when ret lift bind] in H.
  unfold all_present. set (g := fields req) in *.
  destruct (truthy (address g)) eqn:Ha, (truthy (signature g)) eqn:Hs,
    (truthy (input g)) eqn:Hi; try discriminate.
  inversion H; subst. rewrite Ha, Hs, Hi. repeat split; reflexivity.
Qed.

Lemma env_or_nonempty v d : d <> EmptyString -> (env_or v d =? EmptyString)%string = false.
Proof.
  intros Hd. apply String.eqb_neq. unfold env_or.
  destruct v as [s|]; [|assumption].
  destruct (s =? EmptyString)%string eqn:Hs; [assumption|].
  now apply String.eqb_neq.
Qed.

Lemma env_checks_eq w :
  env_checks w =
  if env_set (OPENAI_API_KEY w) then ([], Normal (rpc_url w))
  else ([EConsole LError "OPENAI_API_KEY missing"; EStatus 500;
         EJson (error_object "Server misconfigured (missing OPENAI_API_KEY)")],
        Return).
Proof.
  unfold env_checks, rpc_url.
  destruct (env_set (OPENAI_API_KEY w)); simpl; [|reflexivity].
  rewrite env_or_nonempty by discriminate. reflexivity.
Qed.

(** The verification stage, by cases on what the three calls of its
    [try] block do. *)
Lemma verify_signature_eq w f :
  verify_signature w f =
  match string_plus MESSAGE_PREFIX (input f) with
  | None =>
      ([EConsole LError "signature verify failed"; EStatus 400;
        EJson (error_object "Invalid signature")], Return)
  | Some msg =>
      match verifyMessage w msg (signature f) with
      | None =>
          ([EVerifyMessage msg (signature f);
            EConsole LError "signature verify failed"; EStatus 400;
            EJson (error_object "Invalid signature")], Return)
      | Some recovered =>
          match call_toLowerCase (address f) with
          | None =>
              ([EVerifyMessage msg (signature f);
                EConsole LError "signature verify failed"; EStatus 400;
                EJson (error_object "Invalid signature")], Return)
          | Some claimed =>
              if (toLowerCase recovered =? claimed)%string
              then ([EVerifyMessage msg (signature f)], Normal tt)
              else ([EVerifyMessage msg (signature f); EStatus 401;
                     EJson (error_object "Signature does not match address")],
                    Return)
          end
      end
  end.
Proof.
  unfold verify_signature.
  destruct (string_plus MESSAGE_PREFIX (input f)) as [msg|]; [|reflexivity].
  simpl. destruct (verifyMessage w msg (signature f)) as [recovered|]; [|reflexivity].
  simpl. destruct (call_toLowerCase (address f)) as [claimed|]; [|reflexivity].
  simpl. destruct (toLowerCase recovered =? claimed)%string; reflexivity.
Qed.

(** The handler up to the ownership check, for a POST request. *)
Lemma admission_post w req :
  method req = "POST" ->
  exists hs, Forall (fun e => is_header e = true) hs /\
  admission w req =
  if all_present (fields req) then
    if env_set (OPENAI_API_KEY w) then
      ((hs ++ fst (verify_signature w (fields req)))%list,
       match snd (verify_signature w (fields req)) with
       | Normal _ => Normal (rpc_url w, fields req)
       | Return => Return
       | Throw => Throw
       end)
    else
      ((hs ++ [EConsole LError "OPENAI_API_KEY missing"; EStatus 500;
               EJson (error_object "Server misconfigured (missing OPENAI_API_KEY)")])%list,
       Return)
  else
    ((hs ++ [EStatus 400;
             EJson (error_object "Missing required fields: address, signature, input")])%list,
     Return).
Proof.
  intros Hm.
  destruct (cors_headers w req) as (hs & Hc & Hhs).
  { rewrite Hm. reflexivity. }
  exists hs. split; [assumption|].
  unfold admission. rewrite Hc, (basic_checks_post req Hm), env_checks_eq.
  destruct (all_present (fields req)); [|reflexivity].
  destruct (env_set (OPENAI_API_KEY w)); [|reflexivity].
  cbn [bind ret app].
  destruct (verify_signature w (fields req)) as [tv [[]| |]];
    cbn [bind ret app fst snd]; rewrite ?app_nil_r; reflexivity.
Qed.

Lemma admission_is_post w req t a :
  admission w req = (t, Normal a) -> method req = "POST".
Proof.
  unfold admission. intros H.
  apply bind_normal_inv in H as (t1 & [] & t2 & Hc & H & _).
  apply bind_normal_inv in H as (t3 & f & t4 & Hb & _).
  now apply basic_checks_normal in Hb.
Qed.

(** What a request that reached the ownership check went through. *)
Lemma admission_normal_inv w req t a :
  admission w req = (t, Normal a) ->
  method req = "POST" /\ a = (rpc_url w, fields req) /\
  all_present (fields req) = true /\ env_set (OPENAI_API_KEY w) = true /\
  exists hs msg recovered claimed,
    Forall (fun e => is_header e = true) hs /\
    t = (hs ++ [EVerifyMessage msg (signature (fields req))])%list /\
    string_plus MESSAGE_PREFIX (input (fields req)) = Some msg /\
    verifyMessage w msg (signature (fields req)) = Some recovered /\
    address (fields req) = JString claimed /\
    toLowerCase recovered = toLowerCase claimed.
Proof.
  intros H. pose proof (admission_is_post _ _ _ _ H) as Hm.
  split; [assumption|].
  destruct (admission_post w req Hm) as (hs & Hhs & Heq).
  rewrite Heq in H. clear Heq.
  destruct (all_present (fields req)); [|discriminate].
  destruct (env_set (OPENAI_API_KEY w)); [|discriminate].
  rewrite verify_signature_eq in H. clear Hm.
  destruct (string_plus MESSAGE_PREFIX (input (fields req))) as [msg|] eqn:Hmsg;
    [|discriminate].
  destruct (verifyMessage w msg (signature (fields req))) as [recovered|] eqn:Hv;
    [|discriminate].
  destruct (address (fields req)) as [| | | |claimed| |] eqn:Ha; try discriminate.
  cbn [call_toLowerCase] in H.
  destruct (toLowerCase recovered =? toLowerCase claimed)%string eqn:Hl;
    [|discriminate].
  apply String.eqb_eq in Hl. cbn [fst snd] in H. inversion H; subst.
  do 3 (split; [reflexivity|]).
  exists hs, msg, recovered, claimed. auto 10.
Qed.

Lemma admission_trace_silent w req t a :
  admission w req = (t, Normal a) -> Forall (fun e => silent e = true) t.
Proof.
  intros H. apply admission_normal_inv in H
    as (_ & _ & _ & _ & hs & msg & r & c & Hhs & -> & _).
  apply Forall_app. split; [now apply headers_silent|]. repeat constructor.
Qed.

Lemma handler_of_admission_return w req t :
  admission w req = (t, Return) -> handler w req = (t, Return).
Proof. intros H. unfold handler. now rewrite H. Qed.

Lemma missing_or_empty_falsy v : missing_or_empty v -> truthy v = false.
Proof. intros [-> | ->]; reflexivity. Qed.

(** A POST request with a falsy required field is answered 400 by the
    basic checks, after the CORS headers and nothing else. *)
Lemma handler_missing_fields w req :
  method req = "POST" -> all_present (fields req) = false ->
  exists hs, Forall (fun e => is_header e = true) hs /\
  handler w req =
  ((hs ++ [EStatus 400;
           EJson (error_object "Missing required fields: address, signature, input")])%list,
   Return).
Proof.
  intros Hm Hp. destruct (admission_post w req Hm) as (hs & Hhs & Heq).
  rewrite Hp in Heq. exists hs. split; [assumption|].
  now apply handler_of_admission_return.
Qed.

(** C4. A POST request in which address, signature or input is missing or
    empty is answered 400, and the handler makes no outbound call: no
    signature recovery, no read-node call, no provider call. *)
Theorem missing_field_answered_400_without_calls w req :
  method req = "POST" ->
  missing_or_empty (address (fields req)) \/
  missing_or_empty (signature (fields req)) \/
  missing_or_empty (input (fields req)) ->
  answered (fst (handler w req)) 400
    (error_object "Missing required fields: address, signature, input") /\
  Forall (fun e => is_outbound e = false) (fst (handler w req)) /\
  snd (handler w req) = Return.
Proof.
  intros Hm Hmiss.
  assert (Hp : all_present (fields req) = false).
  { unfold all_present.
    destruct Hmiss as [H | [H | H]]; apply missing_or_empty_falsy in H;
      rewrite H; rewrite ?andb_false_r; reflexivity. }
  destruct (handler_missing_fields w req Hm Hp) as (hs & Hhs & ->).
  cbn [fst snd]. split; [|split; [|reflexivity]].
  - apply answered_reply. now apply headers_silent.
  - apply Forall_app. split.
    + revert Hhs. apply Forall_impl. exact header_not_outbound.
    + repeat constructor.
Qed.

(** A request without signature, on any server: 400 and no call. *)
Lemma missing_field_no_signature :
  answered (fst (handler Scenario.holder Scenario.unsigned)) 400
    (error_object "Missing required fields: address, signature, input") /\
  Forall (fun e => is_outbound e = false)
         (fst (handler Scenario.holder Scenario.unsigned)).
Proof.
  pose proof (missing_field_answered_400_without_calls Scenario.holder
                Scenario.unsigned eq_refl (or_intror (or_introl (or_introl eq_refl))))
    as (Hans & Hcalls & _).
  exact (conj Hans Hcalls).
Defined.

(** C10. A POST request whose body is [null] or [undefined] does not make
    the destructuring throw: the guard puts an empty object in place of
    the body, the four fields are bound to undefined, the handler returns
    and the request is answered 400. *)
Theorem absent_body_answered_400 w req :
  method req = "POST" ->
  body req = JNull \/ body req = JUndefined ->
  destructured req = Some {| address := JUndefined; signature := JUndefined;
                             input := JUndefined; context := JUndefined |} /\
  snd (handler w req) = Return /\
  answered (fst (handler w req)) 400
    (error_object "Missing required fields: address, signature, input").
Proof.
  intros Hm Hb.
  assert (Hd : destructured req
               = Some {| address := JUndefined; signature := JUndefined;
                         input := JUndefined; context := JUndefined |})
    by (unfold destructured; destruct Hb as [-> | ->]; reflexivity).
  split; [assumption|].
  assert (Hp : all_present (fields req) = false).
  { pose proof (destructured_fields req) as Hf. rewrite Hd in Hf.
    inversion Hf as [Heq]. reflexivity. }
  destruct (handler_missing_fields w req Hm Hp) as (hs & Hhs & ->).
  cbn [fst snd]. split; [reflexivity|].
  apply answered_reply. now apply headers_silent.
Qed.

(** A POST with a [null] body: 400, returned and not thrown. *)
Lemma absent_body_null :
  snd (handler Scenario.holder (Scenario.post JNull)) = Return /\
  answered (fst (handler Scenario.holder (Scenario.post JNull))) 400
    (error_object "Missing required fields: address, signature, input").
Proof.
  exact (proj2 (absent_body_answered_400 Scenario.holder
                  (Scenario.post JNull) eq_refl (or_introl eq_refl))).
Defined.

(** *** The ownership check *)

Lemma owner_step_run w c tok a :
  snd (owner_step w c tok a) = Normal (owner_matches w c tok a) /\
  Forall (fun e => is_lookup e = true /\ is_balanceOf e = false)
         (fst (owner_step w c tok a)).
Proof.
  unfold owner_step, owner_matches.
  destruct (nullish tok); cbn [negb andb]; [split; [reflexivity|constructor]|].
  cbn [bind emit app].
  destruct (ownerOf w c tok) as [owner|]; cbn [lift ret throw try_catch bind app fst snd].
  - destruct (owner =? EmptyString)%string; cbn [negb andb].
    + destruct (call_toLowerCase a); split; try reflexivity; repeat constructor.
    + destruct (call_toLowerCase a) as [claimed|];
        cbn [lift ret throw try_catch bind app fst snd emit];
        split; try reflexivity; repeat constructor.
  - split; [reflexivity|]. repeat constructor.
Qed.

Lemma balance_step_run w c a :
  snd (balance_step w c a) = Normal (balance_grants w c a) /\
  exists logs, fst (balance_step w c a) = EBalanceOf c a :: logs /\
               Forall (fun e => is_lookup e = true /\ is_balanceOf e = false) logs.
Proof.
  unfold balance_step, balance_grants. cbn [bind emit app].
  destruct (balanceOf w c a) as [bal|]; cbn [lift ret throw try_catch bind app fst snd].
  - destruct (BigNumber_toNumber bal) as [n|];
      cbn [lift ret throw try_catch bind app fst snd emit];
      (split; [reflexivity|]); eexists; (split; [reflexivity|]); repeat constructor.
  - split; [reflexivity|]. eexists. split; [reflexivity|]. repeat constructor.
Qed.

Lemma lookup_silent e : is_lookup e = true -> silent e = true.
Proof. destruct e; simpl; congruence. Qed.

(** The ownership check once both clients are constructed: the first step
    alone when it matches, both steps otherwise, and 403 when neither
    grants. *)
Lemma ownership_check_run w rpc f :
  truthy (nftContract f) = true ->
  JsonRpcProvider w rpc = true -> Contract w (nftContract f) = true ->
  let c := nftContract f in
  let t1 := ([ENewProvider rpc; ENewContract c]
             ++ fst (owner_step w c (nftTokenId f) (address f)))%list in
  let t2 := (t1 ++ fst (balance_step w c (address f)))%list in
  ownership_check w rpc f =
  if owner_matches w c (nftTokenId f) (address f) then (t1, Normal tt)
  else if balance_grants w c (address f) then (t2, Normal tt)
  else ((t2 ++ [EStatus 403;
                EJson (error_object "NFT ownership check failed - access denied")])%list,
        Return).
Proof.
  intros Hc Hp Hk c t1 t2. subst t2 t1 c. rewrite ownership_check_eq.
  unfold entitlement. rewrite Hc, Hp, Hk. cbn [negb when bind ret emit app].
  set (c := nftContract f).
  destruct (owner_step_run w c (nftTokenId f) (address f)) as (Ho & _).
  destruct (balance_step_run w c (address f)) as (Hb & _).
  destruct (owner_step w c (nftTokenId f) (address f)) as [to co].
  destruct (balance_step w c (address f)) as [tb cb].
  cbn [fst snd] in *. subst co cb.
  destruct (owner_matches w c (nftTokenId f) (address f));
    cbn [negb when bind ret emit app try_catch reply return_].
  - rewrite !app_nil_r. reflexivity.
  - destruct (balance_grants w c (address f));
      cbn [negb when bind ret emit app try_catch reply return_];
      rewrite ?app_nil_r, <- ?app_assoc; reflexivity.
Qed.

(** The ownership check when a client constructor throws. *)
Lemma ownership_check_clients_fail w rpc f :
  truthy (nftContract f) = true ->
  JsonRpcProvider w rpc && Contract w (nftContract f) = false ->
  exists t, Forall (fun e => silent e = true /\ is_fetch e = false
                             /\ is_balanceOf e = false) t /\
  ownership_check w rpc f =
  ((t ++ [EStatus 500; EJson (error_object "Failed to verify ownership")])%list, Return).
Proof.
  intros Hc Hk. rewrite ownership_check_eq. unfold entitlement. rewrite Hc.
  cbn [negb when bind ret emit app].
  destruct (JsonRpcProvider w rpc); cbn [andb negb when bind ret emit app throw try_catch] in *.
  - rewrite Hk. cbn [negb when bind ret emit app throw try_catch reply return_].
    exists [ENewProvider rpc; ENewContract (nftContract f);
            EConsole LError "ownership verification error"].
    split; [repeat constructor|reflexivity].
  - exists [ENewProvider rpc; EConsole LError "ownership verification error"].
    split; [repeat constructor|reflexivity].
Qed.

Lemma ownership_check_no_contract w rpc f :
  truthy (nftContract f) = false ->
  ownership_check w rpc f =
  ([EStatus 400; EJson (error_object "Missing nft_contract in context")], Return).
Proof. intros Hc. rewrite ownership_check_eq. unfold entitlement. rewrite Hc. reflexivity. Qed.

(** *** Properties of every event of a trace, stage by stage *)

Section TraceForall.

Context {E : Type} (P : E -> Prop).

Lemma trace_ret {A} (a : A) : Forall P (fst (ret (E:=E) a)).
Proof. constructor. Qed.

Lemma trace_return {A} : Forall P (fst (return_ (E:=E) (A:=A))).
Proof. constructor. Qed.

Lemma trace_throw {A} : Forall P (fst (throw (E:=E) (A:=A))).
Proof. constructor. Qed.

Lemma trace_lift {A} (o : option A) : Forall P (fst (lift (E:=E) o)).
Proof. destruct o; constructor. Qed.

Lemma trace_emit e : P e -> Forall P (fst (emit e)).
Proof. intros He. repeat constructor. exact He. Qed.

Lemma trace_bind {A B} (m : M E A) (f : A -> M E B) :
  Forall P (fst m) -> (forall a, Forall P (fst (f a))) ->
  Forall P (fst (bind m f)).
Proof.
  intros Hm Hf. unfold bind. destruct m as [t [a| |]]; cbn [fst] in *; auto.
  specialize (Hf a). destruct (f a) as [t' c]. cbn [fst] in *.
  apply Forall_app. auto.
Qed.

Lemma trace_try_catch {A} (body handler : M E A) :
  Forall P (fst body) -> Forall P (fst handler) ->
  Forall P (fst (try_catch body handler)).
Proof.
  intros Hb Hh. unfold try_catch. destruct body as [t [a| |]]; cbn [fst] in *; auto.
  destruct handler as [t' c]. cbn [fst] in *. apply Forall_app. auto.
Qed.

Lemma trace_when c (block : M E unit) :
  Forall P (fst block) -> Forall P (fst (when c block)).
Proof. intros Hb. destruct c; [exact Hb|constructor]. Qed.

End TraceForall.

(** Decomposes a goal [Forall P (fst m)] along the structure of [m]; what
    is left is [P e] for the events [m] emits. *)
Ltac trace_forall :=
  repeat first
    [ apply trace_ret | apply trace_return | apply trace_throw
    | apply trace_lift
    | apply trace_bind; [|intros ?]
    | apply trace_try_catch
    | apply trace_when
    | apply trace_emit
    | match goal with
      | |- Forall _ (fst (if ?c then _ else _)) => destruct c
      | |- Forall _ (fst (match ?o with Some _ => _ | None => _ end)) => destruct o
      | |- Forall _ (fst (match ?s with Done => _ | ReadFails => _ end)) => destruct s
      end ].

Lemma reply_trace {A} (P : Event -> Prop) code payload :
  P (EStatus code) -> P (EJson payload) ->
  Forall P (fst (reply (A:=A) code payload)).
Proof. intros H1 H2. repeat constructor; assumption. Qed.

Lemma admission_before_proxy w req :
  Forall before_proxy (fst (admission w req)).
Proof.
  unfold admission, cors, basic_checks, env_checks, verify_signature.
  trace_forall; try apply reply_trace; repeat split.
Qed.

Lemma ownership_before_proxy w rpc f :
  Forall before_proxy (fst (ownership_check w rpc f)).
Proof.
  unfold ownership_check, entitlement, owner_step, balance_step. cbv zeta.
  trace_forall; try apply reply_trace; repeat split.
Qed.

Lemma gate_before_proxy w req : Forall before_proxy (fst (gate w req)).
Proof.
  unfold gate. apply trace_bind; [apply admission_before_proxy|].
  intros a. apply trace_bind; [apply ownership_before_proxy|].
  intros _. apply trace_ret.
Qed.

(** The handler is the gate followed by the proxy. *)
Lemma handler_gate w req :
  handler w req =
  match gate w req with
  | (t, Normal a) =>
      ((t ++ fst (proxy w (input (snd a))))%list, snd (proxy w (input (snd a))))
  | (t, Return) => (t, Return)
  | (t, Throw) => (t, Throw)
  end.
Proof.
  unfold handler, gate.
  destruct (admission w req) as [ta [a| |]]; cbn [bind]; try reflexivity.
  destruct (ownership_check w (fst a) (snd a)) as [to [[]| |]];
    cbn [bind ret]; try reflexivity.
  destruct (proxy w (input (snd a))) as [tp cp]. cbn [fst snd].
  now rewrite app_nil_r, app_assoc.
Qed.

Lemma gate_normal_inv w req t a :
  gate w req = (t, Normal a) ->
  exists ta to, admission w req = (ta, Normal a) /\
                ownership_check w (fst a) (snd a) = (to, Normal tt) /\
                t = (ta ++ to)%list.
Proof.
  unfold gate. intros H.
  apply bind_normal_inv in H as (ta & a' & t2 & Ha & H & ->).
  apply bind_normal_inv in H as (to & [] & t3 & Ho & H & ->).
  inversion H; subst. exists ta, to. rewrite app_nil_r. auto.
Qed.

(** The ownership check lets a request through only when both clients
    were constructed and one of the two steps granted. *)
Lemma ownership_normal_inv w rpc f t :
  ownership_check w rpc f = (t, Normal tt) ->
  truthy (nftContract f) = true /\
  JsonRpcProvider w rpc = true /\ Contract w (nftContract f) = true /\
  (owner_matches w (nftContract f) (nftTokenId f) (address f) = true \/
   balance_grants w (nftContract f) (address f) = true).
Proof.
  intros H.
  destruct (truthy (nftContract f)) eqn:Hc.
  2:{ rewrite ownership_check_no_contract in H by assumption. discriminate. }
  destruct (JsonRpcProvider w rpc && Contract w (nftContract f)) eqn:Hk.
  2:{ destruct (ownership_check_clients_fail w rpc f Hc Hk) as (t' & _ & Heq).
      rewrite Heq in H. discriminate. }
  apply andb_true_iff in Hk as (Hp & Hk).
  rewrite (ownership_check_run w rpc f Hc Hp Hk) in H.
  repeat (split; [reflexivity || assumption|]).
  destruct (owner_matches w (nftContract f) (nftTokenId f) (address f)); [now left|].
  destruct (balance_grants w (nftContract f) (address f)); [now right|discriminate].
Qed.

(** *** The proxy *)

Lemma proxy_fetch_fails w input :
  fetch w (openai_request w input) = None ->
  proxy w input =
  ([EFetch (openai_request w input); EConsole LError "streaming error";
    EStatus 500; EJson (error_object "Internal server error")], Return).
Proof. intros H. unfold proxy. rewrite H. reflexivity. Qed.

(** A provider response that is not a success, or has no body, is turned
    into a 500 reply before anything else is done to the response. *)
Lemma proxy_refused w input resp :
  fetch w (openai_request w input) = Some resp ->
  refused resp = true ->
  proxy w input =
  ([EFetch (openai_request w input); EText;
    EConsole LError "OpenAI responded with error";
    EStatus 500; EJson (upstream_error resp)], Return).
Proof.
  intros H Hr. unfold proxy. rewrite H.
  cbn [bind emit lift ret app]. rewrite Hr. reflexivity.
Qed.

Lemma read_loop_completion w pending ending : forall n,
  snd (read_loop w n pending ending) =
  match ending with
  | Done => Normal tt
  | ReadFails => Throw
  end.
Proof.
  induction pending as [|value rest IH]; intros n; cbn [read_loop].
  - destruct ending; reflexivity.
  - unfold write, res_write_call. cbn [bind emit app].
    specialize (IH (S n)).
    destruct (read_loop w (S n) rest ending) as [t c]. cbn [snd] in IH. subst c.
    destruct (res_write w n), ending; reflexivity.
Qed.

(** A provider response that is a success and has a body: the
    streaming headers are set, the call for a reader throws, and the
    failure is turned into a 500 reply; the loop is never entered. *)
Lemma proxy_no_reader w input resp :
  fetch w (openai_request w input) = Some resp ->
  refused resp = false ->
  proxy w input =
  ((EFetch (openai_request w input) :: streaming_headers
    ++ [EConsole LError "streaming error"; EStatus 500;
        EJson (error_object "Internal server error")])%list,
   Return).
Proof.
  intros H Hr. unfold proxy. rewrite H.
  cbn [bind emit lift ret app]. rewrite Hr.
  unfold refused in Hr. apply orb_false_iff in Hr as (_ & Hb).
  destruct (oa_body resp) as [body|]; [|discriminate]. reflexivity.
Qed.


(** *** From the gate to the reply *)

Lemma toLowerCase_empty s : toLowerCase s = EmptyString -> s = EmptyString.
Proof. destruct s; [reflexivity|discriminate]. Qed.

Lemma owner_matches_confirmed w f :
  owner_matches w (nftContract f) (nftTokenId f) (address f) = true ->
  owner_confirmed w f.
Proof.
  unfold owner_matches, owner_confirmed. intros H.
  apply andb_true_iff in H as (Hn & H). apply negb_true_iff in Hn.
  split; [assumption|].
  destruct (ownerOf w (nftContract f) (nftTokenId f)) as [owner|]; [|discriminate].
  destruct (address f) as [| | | |claimed| |]; try discriminate.
  cbn [call_toLowerCase] in H. apply andb_true_iff in H as (_ & H).
  apply String.eqb_eq in H. exists owner, claimed. auto.
Qed.

Lemma owner_confirmed_matches w f :
  truthy (address f) = true -> owner_confirmed w f ->
  owner_matches w (nftContract f) (nftTokenId f) (address f) = true.
Proof.
  unfold owner_matches, owner_confirmed.
  intros Ht (Hn & owner & claimed & Ho & Ha & Hl).
  rewrite Hn, Ho, Ha. cbn [negb andb call_toLowerCase].
  rewrite Hl, String.eqb_refl, andb_true_r. apply negb_true_iff, String.eqb_neq.
  intros ->. rewrite Ha in Ht. cbn [truthy] in Ht.
  symmetry in Hl. apply toLowerCase_empty in Hl. subst claimed. discriminate.
Qed.

Lemma balance_grants_confirmed w f :
  balance_grants w (nftContract f) (address f) = true -> balance_confirmed w f.
Proof.
  unfold balance_grants, balance_confirmed, BigNumber_toNumber. intros H.
  destruct (balanceOf w (nftContract f) (address f)) as [bal|]; [|discriminate].
  exists bal. split; [reflexivity|].
  destruct (Z.abs bal <=? MAX_SAFE_INTEGER); [|discriminate].
  now apply Z.ltb_lt.
Qed.

Lemma gate_of_admission w req t a :
  admission w req = (t, Normal a) ->
  gate w req =
  ((t ++ fst (ownership_check w (fst a) (snd a)))%list,
   match snd (ownership_check w (fst a) (snd a)) with
   | Normal _ => Normal a
   | Return => Return
   | Throw => Throw
   end).
Proof.
  intros H. unfold gate. rewrite H. cbn [bind].
  destruct (ownership_check w (fst a) (snd a)) as [to [[]| |]];
    cbn [bind ret fst snd]; rewrite ?app_nil_r; reflexivity.
Qed.

Lemma lookups_silent t :
  Forall (fun e => is_lookup e = true /\ is_balanceOf e = false) t ->
  Forall (fun e => silent e = true) t.
Proof. apply Forall_impl. intros e (H & _). now apply lookup_silent. Qed.

(** A request whose ownership neither step established is answered 403,
    once the balance lookup has been made. *)
Lemma handler_denied w req t a :
  admission w req = (t, Normal a) ->
  truthy (nftContract (snd a)) = true ->
  JsonRpcProvider w (fst a) = true -> Contract w (nftContract (snd a)) = true ->
  owner_matches w (nftContract (snd a)) (nftTokenId (snd a)) (address (snd a)) = false ->
  balance_grants w (nftContract (snd a)) (address (snd a)) = false ->
  exists pre,
    Forall (fun e => silent e = true) pre /\ Forall before_proxy pre /\
    In (EBalanceOf (nftContract (snd a)) (address (snd a))) pre /\
    handler w req = ((pre ++ [EStatus 403; EJson denied])%list, Return).
Proof.
  intros Ha Hc Hp Hk Ho Hb.
  pose proof (gate_before_proxy w req) as Hbp.
  rewrite handler_gate, (gate_of_admission w req t a Ha) in *.
  rewrite (ownership_check_run w (fst a) (snd a) Hc Hp Hk) in *.
  rewrite Ho, Hb in *. cbn [fst snd] in *.
  destruct (owner_step_run w (nftContract (snd a)) (nftTokenId (snd a)) (address (snd a)))
    as (_ & Hto).
  destruct (balance_step_run w (nftContract (snd a)) (address (snd a)))
    as (_ & logs & Htb & Hlogs).
  rewrite Htb in *.
  set (to := fst (owner_step w (nftContract (snd a)) (nftTokenId (snd a)) (address (snd a)))) in *.
  exists (t ++ [ENewProvider (fst a); ENewContract (nftContract (snd a))] ++ to
            ++ EBalanceOf (nftContract (snd a)) (address (snd a)) :: logs)%list.
  split; [|split; [|split]].
  - apply Forall_app. split; [now apply (admission_trace_silent w req t a)|].
    repeat constructor. apply Forall_app. split; [now apply lookups_silent|].
    constructor; [reflexivity|now apply lookups_silent].
  - rewrite !app_assoc in Hbp. apply Forall_app in Hbp as (Hbp & _).
    rewrite <- !app_assoc in Hbp. exact Hbp.
  - apply in_or_app. right. cbn [app]. right. right.
    apply in_or_app. right. now left.
  - rewrite <- !app_assoc. reflexivity.
Qed.

Lemma read_loop_io w pending ending : forall n,
  Forall (fun e => is_stream_io e = true) (fst (read_loop w n pending ending)).
Proof.
  induction pending as [|value rest IH]; intros n; cbn [read_loop].
  - destruct ending; repeat constructor.
  - unfold write, res_write_call. trace_forall; try reflexivity. apply IH.
Qed.

(** The proxy makes no read-node call. *)
Lemma proxy_no_lookup w input :
  Forall (fun e => is_read_node_call e = false) (fst (proxy w input)).
Proof.
  unfold proxy, res_write_call.
  trace_forall; try apply reply_trace; reflexivity.
Qed.

Lemma admission_no_lookup w req :
  Forall (fun e => is_read_node_call e = false) (fst (admission w req)).
Proof.
  unfold admission, cors, basic_checks, env_checks, verify_signature.
  trace_forall; try apply reply_trace; reflexivity.
Qed.

(** Membership in a trace given as appended pieces. *)
Ltac in_trace := repeat (rewrite in_app_iff || cbn [In]); auto 12.

Lemma Forall_not_In {A} (P : A -> bool) (l : list A) x :
  Forall (fun e => P e = false) l -> P x = true -> ~ In x l.
Proof.
  intros Hl Hx Hin. rewrite Forall_forall in Hl. specialize (Hl x Hin). congruence.
Qed.

(** The balance lookup is made only for a request that reached the
    ownership check with a contract, whose clients were constructed and
    whose first step did not match. *)
Lemma balance_lookup_inv w req c addr :
  In (EBalanceOf c addr) (fst (handler w req)) ->
  exists t, admission w req = (t, Normal (rpc_url w, fields req)) /\
  truthy (nftContract (fields req)) = true /\
  clients_ok w (fields req) = true /\
  owner_matches w (nftContract (fields req)) (nftTokenId (fields req))
                (address (fields req)) = false.
Proof.
  intros Hin. unfold handler in Hin.
  pose proof (admission_no_lookup w req) as Hadm.
  destruct (admission w req) as [t [a| |]] eqn:Ha; cbn [bind fst] in *;
    try (exfalso; revert Hin; apply (Forall_not_In is_read_node_call); [exact Hadm|reflexivity]).
  pose proof (admission_normal_inv w req t a Ha) as (_ & -> & _).
  exists t. split; [reflexivity|]. cbn [fst snd] in *.
  set (f := fields req) in *. set (rpc := rpc_url w) in *.
  assert (Hproxy := proxy_no_lookup w (input f)).
  destruct (truthy (nftContract f)) eqn:Hc.
  2:{ exfalso. rewrite (ownership_check_no_contract w rpc f Hc) in Hin.
      cbn [bind fst app] in Hin. apply in_app_or in Hin as [Hin|Hin].
      - revert Hin. now apply (Forall_not_In is_read_node_call).
      - cbn in Hin. intuition discriminate. }
  split; [reflexivity|]. unfold clients_ok. fold f rpc.
  destruct (JsonRpcProvider w rpc && Contract w (nftContract f)) eqn:Hk.
  2:{ exfalso. destruct (ownership_check_clients_fail w rpc f Hc Hk) as (t' & Ht' & Heq).
      rewrite Heq in Hin. cbn [bind fst app] in Hin.
      apply in_app_or in Hin as [Hin|Hin];
        [revert Hin; now apply (Forall_not_In is_read_node_call)|].
      apply in_app_or in Hin as [Hin|Hin]; [|cbn in Hin; intuition discriminate].
      rewrite Forall_forall in Ht'. apply Ht' in Hin as (_ & _ & Hin). discriminate. }
  split; [reflexivity|].
  apply andb_true_iff in Hk as (Hp & Hk).
  rewrite (ownership_check_run w rpc f Hc Hp Hk) in Hin.
  destruct (owner_matches w (nftContract f) (nftTokenId f) (address f)); [|reflexivity].
  exfalso. cbn [bind] in Hin.
  destruct (proxy w (input f)) as [tp cp]. cbn [fst] in *.
  destruct (owner_step_run w (nftContract f) (nftTokenId f) (address f)) as (_ & Hto).
  rewrite !in_app_iff in Hin. cbn [In] in Hin.
  destruct Hin as [Hin|[[[Hin|[Hin|[]]]|Hin]|Hin]]; try discriminate.
  - revert Hin. now apply (Forall_not_In is_read_node_call).
  - rewrite Forall_forall in Hto. apply Hto in Hin as (_ & Hin). discriminate.
  - revert Hin. now apply (Forall_not_In is_read_node_call).
Qed.

(** *** Past the gate *)

Lemma gate_trace_silent w req t a :
  gate w req = (t, Normal a) -> Forall (fun e => silent e = true) t.
Proof.
  intros Hg. apply gate_normal_inv in Hg as (ta & to & Ha & Ho & ->).
  apply Forall_app. split; [now apply (admission_trace_silent w req ta a)|].
  pose proof (ownership_normal_inv _ _ _ _ Ho) as (Hc & Hp & Hk & _).
  rewrite (ownership_check_run w _ _ Hc Hp Hk) in Ho.
  destruct (owner_step_run w (nftContract (snd a)) (nftTokenId (snd a)) (address (snd a)))
    as (_ & Hto).
  destruct (balance_step_run w (nftContract (snd a)) (address (snd a)))
    as (_ & logs & Htb & Hlogs).
  apply lookups_silent in Hto. apply lookups_silent in Hlogs.
  destruct (owner_matches _ _ _ _).
  - inversion Ho; subst. repeat constructor. assumption.
  - destruct (balance_grants _ _ _); [|discriminate].
    inversion Ho; subst. rewrite Htb. repeat constructor.
    apply Forall_app. split; [assumption|]. constructor; [reflexivity|assumption].
Qed.

Lemma gate_no_streaming_header w req :
  Forall (fun e => is_streaming_header e = false) (fst (gate w req)).
Proof.
  unfold gate, admission, cors, basic_checks, env_checks, verify_signature,
    ownership_check, entitlement, owner_step, balance_step. cbv zeta.
  trace_forall; try apply reply_trace; reflexivity.
Qed.

Lemma gate_fields w req t a :
  gate w req = (t, Normal a) -> a = (rpc_url w, fields req).
Proof.
  intros Hg. apply gate_normal_inv in Hg as (ta & to & Ha & _).
  now apply admission_normal_inv in Ha as (_ & -> & _).
Qed.

(** A request the gate let through is always answered 500 by the proxy
    stage: with the refusal of the provider, or with [Internal server
    error] when the call to the provider throws or, the provider having
    answered with a success and a body, when the call for a reader
    throws. *)
Lemma provider_stage_answers w req t a :
  gate w req = (t, Normal a) ->
  exists pre payload,
    Forall (fun e => silent e = true) pre /\
    handler w req = ((pre ++ [EStatus 500; EJson payload])%list, Return) /\
    payload = match fetch w (openai_request w (input (fields req))) with
              | Some resp => if refused resp then upstream_error resp
                             else error_object "Internal server error"
              | None => error_object "Internal server error"
              end.
Proof.
  intros Hg. pose proof (gate_fields w req t a Hg) as ->.
  pose proof (gate_trace_silent w req t _ Hg) as Hs.
  rewrite handler_gate, Hg. cbn [fst snd].
  destruct (fetch w (openai_request w (input (fields req)))) as [resp|] eqn:Hf.
  - destruct (refused resp) eqn:Hr.
    + rewrite (proxy_refused w _ resp Hf Hr). cbn [fst snd].
      exists (t ++ [EFetch (openai_request w (input (fields req))); EText;
                    EConsole LError "OpenAI responded with error"])%list,
             (upstream_error resp).
      split; [apply Forall_app; split; [assumption|repeat constructor]|].
      split; [now rewrite <- app_assoc|reflexivity].
    + rewrite (proxy_no_reader w _ resp Hf Hr). cbn [fst snd].
      exists (t ++ EFetch (openai_request w (input (fields req)))
                :: streaming_headers ++ [EConsole LError "streaming error"])%list,
             (error_object "Internal server error").
      split; [apply Forall_app; split; [assumption|repeat constructor]|].
      split; [|reflexivity]. unfold streaming_headers.
      repeat (rewrite <- app_assoc; cbn [app]). reflexivity.
  - rewrite (proxy_fetch_fails w _ Hf). cbn [fst snd].
    exists (t ++ [EFetch (openai_request w (input (fields req)));
                  EConsole LError "streaming error"])%list,
           (error_object "Internal server error").
    split; [apply Forall_app; split; [assumption|repeat constructor]|].
    split; [now rewrite <- app_assoc|reflexivity].
Qed.

(** *** Entitlement *)

Lemma proxy_starts_with_fetch w input :
  exists rest, fst (proxy w input) = EFetch (openai_request w input) :: rest.
Proof.
  destruct (fetch w (openai_request w input)) as [resp|] eqn:Hf.
  - destruct (refused resp) eqn:Hr.
    + rewrite (proxy_refused w input resp Hf Hr). eexists. reflexivity.
    + rewrite (proxy_no_reader w input resp Hf Hr). eexists. reflexivity.
  - rewrite (proxy_fetch_fails w input Hf). eexists. reflexivity.
Qed.

Lemma gate_reaches_provider w req t a :
  gate w req = (t, Normal a) -> reaches_provider w req.
Proof.
  intros Hg. unfold reaches_provider. rewrite handler_gate, Hg. cbn [fst].
  destruct (proxy_starts_with_fetch w (input (snd a))) as (rest & ->).
  eexists. apply in_or_app. right. now left.
Qed.

Lemma reaches_provider_gate w req :
  reaches_provider w req -> exists t a, gate w req = (t, Normal a).
Proof.
  intros (r & Hin). rewrite handler_gate in Hin.
  pose proof (gate_before_proxy w req) as Hbp.
  destruct (gate w req) as [t [a| |]]; [now exists t, a| |];
    cbn [fst] in *; rewrite Forall_forall in Hbp;
    apply Hbp in Hin as (Hin & _); discriminate.
Qed.

(** C2. Fail-closed entitlement.  A request gets as far as the provider
    call only if the ownerOf lookup matched the claimed address or the
    balanceOf lookup returned a balance above zero; and when the checks
    ran (the request reached the ownership check with a contract and the
    read-node clients were constructed) and established neither, the request
    is answered 403 and the provider is never called. *)
Theorem fail_closed w req :
  (reaches_provider w req ->
   owner_confirmed w (fields req) \/ balance_confirmed w (fields req)) /\
  (forall t a,
     admission w req = (t, Normal a) ->
     truthy (nftContract (fields req)) = true ->
     clients_ok w (fields req) = true ->
     ~ owner_confirmed w (fields req) -> ~ balance_confirmed w (fields req) ->
     answered (fst (handler w req)) 403 denied /\ ~ reaches_provider w req).
Proof.
  assert (Hgranted : reaches_provider w req ->
            owner_confirmed w (fields req) \/ balance_confirmed w (fields req)).
  { intros Hr. apply reaches_provider_gate in Hr as (t & a & Hg).
    apply gate_normal_inv in Hg as (ta & to & Ha & Ho & _).
    apply admission_normal_inv in Ha as (_ & -> & _).
    apply ownership_normal_inv in Ho as (_ & _ & _ & [Hm|Hb]).
    - left. now apply owner_matches_confirmed.
    - right. now apply balance_grants_confirmed. }
  split; [exact Hgranted|].
  intros t a Ha Hc Hk Hno Hnb. split; [|tauto].
  pose proof (admission_normal_inv w req t a Ha) as (_ & -> & Hp & _).
  unfold clients_ok in Hk. apply andb_true_iff in Hk as (Hprov & Hk).
  destruct (handler_denied w req t _ Ha Hc Hprov Hk) as (pre & Hs & _ & _ & ->).
  - cbn [snd]. destruct (owner_matches _ _ _ _) eqn:Hm; [|reflexivity].
    exfalso. apply Hno. now apply owner_matches_confirmed.
  - cbn [snd]. destruct (balance_grants _ _ _) eqn:Hb; [|reflexivity].
    exfalso. apply Hnb. now apply balance_grants_confirmed.
  - cbn [fst]. now apply answered_reply.
Qed.

(** A wallet that holds nothing is turned away with 403 before the
    provider is called. *)
Lemma fail_closed_stranger :
  answered (fst (handler Scenario.stranger
                         Scenario.token_request))
           403 denied /\
  ~ reaches_provider Scenario.stranger
      Scenario.token_request.
Proof.
  refine (proj2 (fail_closed Scenario.stranger
                   Scenario.token_request)
                _ _ eq_refl eq_refl eq_refl _ _).
  - intros (_ & owner & claimed & Ho & Ha & Hl).
    inversion Ho; inversion Ha; subst. vm_compute in Hl. discriminate.
  - intros (bal & Hb & Hpos). inversion Hb; subst. lia.
Defined.

(** C9. A request whose decision falls through to the balance lookup, and
    whose balance is above 2^53 - 1, is answered 403: the conversion of
    the balance to a number throws, the exception is caught and logged,
    and ownership stays unconfirmed although the balance is positive. *)
Theorem unsafe_balance_denied w req bal :
  In (EBalanceOf (nftContract (fields req)) (address (fields req)))
     (fst (handler w req)) ->
  balanceOf w (nftContract (fields req)) (address (fields req)) = Some bal ->
  MAX_SAFE_INTEGER < bal ->
  0 < bal /\ BigNumber_toNumber bal = None /\
  In (EConsole LWarn "balanceOf check failed") (fst (handler w req)) /\
  snd (handler w req) = Return /\
  answered (fst (handler w req)) 403 denied /\
  ~ reaches_provider w req.
Proof.
  intros Hin Hbal Hbig.
  assert (Hconv : BigNumber_toNumber bal = None).
  { unfold BigNumber_toNumber. destruct (Z.abs bal <=? MAX_SAFE_INTEGER) eqn:Hle;
      [|reflexivity]. apply Z.leb_le in Hle. lia. }
  assert (Hpos : 0 < bal) by (unfold MAX_SAFE_INTEGER in Hbig; lia).
  do 2 (split; [assumption|]).
  apply balance_lookup_inv in Hin as (t & Ha & Hc & Hk & Hm).
  unfold clients_ok in Hk. apply andb_true_iff in Hk as (Hprov & Hk).
  assert (Hg : balance_grants w (nftContract (fields req)) (address (fields req)) = false).
  { unfold balance_grants. now rewrite Hbal, Hconv. }
  pose proof (gate_before_proxy w req) as Hbp. unfold reaches_provider.
  rewrite handler_gate, (gate_of_admission w req t _ Ha) in *.
  cbn [fst snd] in *.
  rewrite (ownership_check_run w _ _ Hc Hprov Hk) in *.
  rewrite Hm, Hg in *. cbn [fst snd] in *.
  unfold balance_step in *. rewrite Hbal in *. cbn [bind emit lift ret app] in *.
  rewrite Hconv in *. cbn [bind emit lift ret throw try_catch app fst] in *.
  destruct (owner_step_run w (nftContract (fields req)) (nftTokenId (fields req))
                           (address (fields req))) as (_ & Hto).
  set (to := fst (owner_step w _ _ _)) in *.
  split; [|split; [reflexivity|split]].
  - in_trace.
  - match goal with
    | |- answered ?tr _ _ =>
        replace tr with
          ((t ++ ENewProvider (rpc_url w) :: ENewContract (nftContract (fields req))
              :: to ++ [EBalanceOf (nftContract (fields req)) (address (fields req));
                        EConsole LWarn "balanceOf check failed"])
             ++ [EStatus 403; EJson denied])%list
          by (repeat (rewrite <- app_assoc; cbn [app]); reflexivity)
    end.
    apply answered_reply. apply Forall_app. split;
      [now apply (admission_trace_silent w req t _ Ha)|].
    repeat constructor. apply Forall_app. split; [now apply lookups_silent|].
    repeat constructor.
  - intros (r & Hr). rewrite Forall_forall in Hbp. apply Hbp in Hr as (Hr & _).
    discriminate.
Qed.

(** The wallet's balance of 2^53 is read, cannot be converted, and the
    request is turned away. *)
Lemma unsafe_balance_denied_whale :
  answered (fst (handler Scenario.whale
                         Scenario.holder_request))
           403 denied /\
  ~ reaches_provider Scenario.whale
      Scenario.holder_request.
Proof.
  refine (proj2 (proj2 (proj2 (proj2
            (unsafe_balance_denied Scenario.whale
               Scenario.holder_request
               9007199254740992 _ eq_refl eq_refl))))).
  vm_compute. auto 12.
Defined.

(** C1, at a balance of 2^53.  The request reaches the entitlement stage
    with no token id, the balance lookup returns a balance above zero,
    and the request is answered 403 instead of being granted. *)
Theorem positive_balance_beyond_safe_range_denied :
  let w := Scenario.whale in
  let req := Scenario.holder_request in
  (exists t, admission w req = (t, Normal (rpc_url w, fields req))) /\
  nullish (nftTokenId (fields req)) = true /\
  In (EBalanceOf (nftContract (fields req)) (address (fields req)))
     (fst (handler w req)) /\
  balanceOf w (nftContract (fields req)) (address (fields req))
  = Some 9007199254740992 /\
  0 < 9007199254740992 /\
  http_status (fst (handler w req)) = Some 403 /\
  Forall (fun e => is_fetch e = false) (fst (handler w req)).
Proof.
  cbv zeta. split; [eexists; vm_compute; reflexivity|].
  split; [reflexivity|]. split; [vm_compute; auto 12|].
  split; [reflexivity|]. split; [reflexivity|]. split; [reflexivity|].
  vm_compute. repeat constructor.
Qed.

(** X1. The first step of the ordered entitlement algorithm: with a token id
    whose owner, as [ownerOf] returns it, is the claimed address up to
    letter case, the request is let through to the provider and the
    balance lookup is never made. *)
Theorem owner_match_grants_without_balance_lookup w req t a :
  admission w req = (t, Normal a) ->
  truthy (nftContract (fields req)) = true ->
  clients_ok w (fields req) = true ->
  owner_confirmed w (fields req) ->
  (exists tg, gate w req = (tg, Normal a)) /\
  reaches_provider w req /\
  Forall (fun e => is_balanceOf e = false) (fst (handler w req)).
Proof.
  intros Ha Hc Hk Hown.
  pose proof (admission_normal_inv w req t a Ha) as (_ & -> & Hp & _).
  assert (Hm : owner_matches w (nftContract (fields req)) (nftTokenId (fields req))
                             (address (fields req)) = true).
  { apply owner_confirmed_matches; [|assumption].
    unfold all_present in Hp. apply andb_true_iff in Hp as (Hp & _).
    now apply andb_true_iff in Hp as (Hp & _). }
  assert (Hg : exists tg, gate w req = (tg, Normal (rpc_url w, fields req))).
  { unfold clients_ok in Hk. apply andb_true_iff in Hk as (Hprov & Hk).
    rewrite (gate_of_admission w req t _ Ha). cbn [fst snd].
    rewrite (ownership_check_run w _ _ Hc Hprov Hk), Hm. eexists. reflexivity. }
  split; [exact Hg|]. destruct Hg as (tg & Hg).
  split; [now apply (gate_reaches_provider w req tg _ Hg)|].
  rewrite Forall_forall. intros e Hin.
  destruct (is_balanceOf e) eqn:He; [|reflexivity]. exfalso.
  destruct e; try discriminate.
  apply balance_lookup_inv in Hin as (_ & _ & _ & _ & Hno). congruence.
Qed.

Lemma owner_match_grants_token_owner :
  reaches_provider Scenario.token_owner
    Scenario.token_request /\
  Forall (fun e => is_balanceOf e = false)
    (fst (handler Scenario.token_owner
                  Scenario.token_request)).
Proof.
  refine (proj2 (owner_match_grants_without_balance_lookup Scenario.token_owner
            Scenario.token_request
            _ _ eq_refl eq_refl eq_refl _)).
  split; [reflexivity|].
  exists Scenario.WALLET, Scenario.wallet. repeat split; reflexivity.
Defined.

(** X2. The second step: when the first did not confirm ownership (no token
    id, a failed lookup, another owner), the balance of the claimed
    address is looked up, and a balance from 1 to 2^53 - 1 lets the
    request through to the provider. *)
Theorem balance_fallback_grants w req t a :
  admission w req = (t, Normal a) ->
  truthy (nftContract (fields req)) = true ->
  clients_ok w (fields req) = true ->
  ~ owner_confirmed w (fields req) ->
  In (EBalanceOf (nftContract (fields req)) (address (fields req)))
     (fst (handler w req)) /\
  (forall bal,
     balanceOf w (nftContract (fields req)) (address (fields req)) = Some bal ->
     0 < bal <= MAX_SAFE_INTEGER ->
     reaches_provider w req).
Proof.
  intros Ha Hc Hk Hown.
  pose proof (admission_normal_inv w req t a Ha) as (_ & -> & Hp & _).
  assert (Hm : owner_matches w (nftContract (fields req)) (nftTokenId (fields req))
                             (address (fields req)) = false).
  { destruct (owner_matches _ _ _ _) eqn:Hm; [|reflexivity].
    exfalso. apply Hown. now apply owner_matches_confirmed. }
  unfold clients_ok in Hk. apply andb_true_iff in Hk as (Hprov & Hk).
  destruct (balance_step_run w (nftContract (fields req)) (address (fields req)))
    as (_ & logs & Htb & _).
  split.
  - rewrite handler_gate, (gate_of_admission w req t _ Ha). cbn [fst snd].
    rewrite (ownership_check_run w _ _ Hc Hprov Hk), Hm, Htb.
    destruct (balance_grants _ _ _); cbn [fst snd]; in_trace.
  - intros bal Hbal Hrange.
    assert (Hg : balance_grants w (nftContract (fields req)) (address (fields req)) = true).
    { unfold balance_grants, BigNumber_toNumber. rewrite Hbal.
      replace (Z.abs bal <=? MAX_SAFE_INTEGER) with true
        by (symmetry; apply Z.leb_le; lia).
      apply Z.ltb_lt. lia. }
    apply (gate_reaches_provider w req
             (t ++ fst (ownership_check w (rpc_url w) (fields req))) (rpc_url w, fields req)).
    rewrite (gate_of_admission w req t _ Ha). cbn [fst snd].
    rewrite (ownership_check_run w _ _ Hc Hprov Hk), Hm, Hg. reflexivity.
Qed.

Lemma balance_fallback_grants_holder :
  reaches_provider Scenario.holder
    Scenario.token_request.
Proof.
  refine (proj2 (balance_fallback_grants Scenario.holder
            Scenario.token_request
            _ _ eq_refl eq_refl eq_refl _) 1 eq_refl _).
  - intros (_ & owner & claimed & Ho & _). discriminate.
  - unfold MAX_SAFE_INTEGER. lia.
Defined.

(** *** Read-node failures *)

(** C5 fails with the read-node down.  Both lookups are made and both
    fail, and the request is answered 403, not 500. *)
Lemma read_node_failure_answered_403 :
  In (EOwnerOf Scenario.COLLECTION (JNumber 7))
     (fst (handler Scenario.node_down Scenario.token_request)) /\
  ownerOf Scenario.node_down Scenario.COLLECTION (JNumber 7) = None /\
  In (EBalanceOf Scenario.COLLECTION (JString Scenario.wallet))
     (fst (handler Scenario.node_down Scenario.token_request)) /\
  balanceOf Scenario.node_down Scenario.COLLECTION (JString Scenario.wallet) = None /\
  http_status (fst (handler Scenario.node_down Scenario.token_request)) = Some 403 /\
  http_status (fst (handler Scenario.node_down Scenario.token_request)) <> Some 500.
Proof.
  split; [vm_compute; auto 12|]. split; [reflexivity|].
  split; [vm_compute; auto 12|]. split; [reflexivity|].
  split; [reflexivity|]. vm_compute. discriminate.
Qed.

Lemma handler_clients_fail w req t a :
  admission w req = (t, Normal a) ->
  truthy (nftContract (fields req)) = true ->
  clients_ok w (fields req) = false ->
  answered (fst (handler w req)) 500 (error_object "Failed to verify ownership").
Proof.
  intros Ha Hc Hk.
  pose proof (admission_normal_inv w req t a Ha) as (_ & -> & _).
  destruct (ownership_check_clients_fail w (rpc_url w) (fields req) Hc Hk)
    as (pre & Hpre & Heq).
  rewrite handler_gate, (gate_of_admission w req t _ Ha). cbn [fst snd].
  rewrite Heq. cbn [fst snd]. rewrite app_assoc. apply answered_reply.
  apply Forall_app. split; [now apply (admission_trace_silent w req t _ Ha)|].
  revert Hpre. apply Forall_impl. tauto.
Qed.

Lemma answered_unique t c p c' p' :
  answered t c p -> answered t c' p' -> c = c' /\ p = p'.
Proof.
  unfold answered. intros (Hs & Hd & _) (Hs' & Hd' & _).
  rewrite Hs in Hs'. rewrite Hd in Hd'. inversion Hs'. inversion Hd'. auto.
Qed.

(** With both clients constructed the proxy stage or the 403 of the
    ownership check answers, never the 500 of the ownership check. *)
Lemma clients_ok_outcomes w req t a :
  admission w req = (t, Normal a) ->
  truthy (nftContract (fields req)) = true ->
  clients_ok w (fields req) = true ->
  answered (fst (handler w req)) 403 denied \/
  answered (fst (handler w req)) 500 (error_object "Internal server error") \/
  exists resp, answered (fst (handler w req)) 500 (upstream_error resp).
Proof.
  intros Ha Hc Hk.
  pose proof (admission_normal_inv w req t a Ha) as (_ & -> & _).
  unfold clients_ok in Hk. apply andb_true_iff in Hk as (Hprov & Hcon).
  assert (Hpass : snd (ownership_check w (rpc_url w) (fields req)) = Normal tt ->
                  answered (fst (handler w req)) 500
                           (error_object "Internal server error") \/
                  exists resp, answered (fst (handler w req)) 500 (upstream_error resp)).
  { intros Ho. pose proof (gate_of_admission w req t _ Ha) as Hg.
    cbn [fst snd] in Hg. rewrite Ho in Hg.
    destruct (provider_stage_answers w req _ _ Hg) as (pre & payload & Hpre & -> & Hp).
    cbn [fst]. pose proof (answered_reply pre 500 payload Hpre) as Hans.
    destruct (fetch w (openai_request w (input (fields req)))) as [resp|];
      [destruct (refused resp)|]; subst payload; eauto. }
  pose proof (ownership_check_run w (rpc_url w) (fields req) Hc Hprov Hcon) as Hrun.
  cbv zeta in Hrun.
  destruct (owner_matches w (nftContract (fields req)) (nftTokenId (fields req))
                          (address (fields req))) eqn:Hom.
  { right. apply Hpass. now rewrite Hrun. }
  destruct (balance_grants w (nftContract (fields req)) (address (fields req))) eqn:Hbg.
  { right. apply Hpass. now rewrite Hrun. }
  left. destruct (handler_denied w req t _ Ha Hc Hprov Hcon Hom Hbg)
    as (pre & Hs & _ & _ & ->).
  cbn [fst]. now apply answered_reply.
Qed.

(** C5, amended.  For a request that reached the ownership check with a
    contract: the request is answered 500 [Failed to verify ownership]
    when, and only when, constructing the read-node clients throws; once
    they are constructed, a failing [ownerOf] lookup falls back to the
    [balanceOf] lookup, and a failing [balanceOf] lookup, the first step
    not having confirmed ownership, is answered 403. *)
Theorem read_node_failure_outcomes w req t a :
  admission w req = (t, Normal a) ->
  truthy (nftContract (fields req)) = true ->
  (answered (fst (handler w req)) 500 (error_object "Failed to verify ownership")
   <-> clients_ok w (fields req) = false) /\
  (clients_ok w (fields req) = true ->
   (ownerOf w (nftContract (fields req)) (nftTokenId (fields req)) = None ->
    In (EBalanceOf (nftContract (fields req)) (address (fields req)))
       (fst (handler w req))) /\
   (~ owner_confirmed w (fields req) ->
    balanceOf w (nftContract (fields req)) (address (fields req)) = None ->
    answered (fst (handler w req)) 403 denied)).
Proof.
  intros Ha Hc. split.
  { split; [|now apply (handler_clients_fail w req t a)].
    intros Hans. destruct (clients_ok w (fields req)) eqn:Hk; [|reflexivity].
    exfalso.
    destruct (clients_ok_outcomes w req t a Ha Hc Hk) as [H|[H|(resp & H)]];
      destruct (answered_unique _ _ _ _ _ Hans H) as (Hcode & Hdoc);
      discriminate. }
  intros Hk.
  pose proof (admission_normal_inv w req t a Ha) as (_ & -> & _).
  pose proof Hk as Hk'. unfold clients_ok in Hk'.
  apply andb_true_iff in Hk' as (Hprov & Hcon).
  assert (Hfall : owner_matches w (nftContract (fields req)) (nftTokenId (fields req))
                    (address (fields req)) = false ->
                  In (EBalanceOf (nftContract (fields req)) (address (fields req)))
                     (fst (handler w req))).
  { intros Hm.
    destruct (balance_step_run w (nftContract (fields req)) (address (fields req)))
      as (_ & logs & Htb & _).
    rewrite handler_gate, (gate_of_admission w req t _ Ha). cbn [fst snd].
    rewrite (ownership_check_run w _ _ Hc Hprov Hcon), Hm, Htb.
    destruct (balance_grants _ _ _); cbn [fst snd]; in_trace. }
  split.
  - intros Ho. apply Hfall. unfold owner_matches. rewrite Ho.
    apply andb_false_r.
  - intros Hno Hbal.
    destruct (handler_denied w req t _ Ha Hc Hprov Hcon) as (pre & Hs & _ & _ & ->).
    + cbn [snd]. destruct (owner_matches _ _ _ _) eqn:Hm; [|reflexivity].
      exfalso. apply Hno. now apply owner_matches_confirmed.
    + cbn [snd]. unfold balance_grants. now rewrite Hbal.
    + cbn [fst]. now apply answered_reply.
Qed.

(** With the read-node down the request is answered 403. *)
Lemma read_node_failure_outcomes_node_down :
  In (EBalanceOf Scenario.COLLECTION (JString Scenario.wallet))
     (fst (handler Scenario.node_down Scenario.token_request)) /\
  answered (fst (handler Scenario.node_down Scenario.token_request)) 403 denied.
Proof.
  pose proof (proj2 (read_node_failure_outcomes Scenario.node_down Scenario.token_request
                       _ _ eq_refl eq_refl) eq_refl) as (Hfall & Hdeny).
  split; [exact (Hfall eq_refl)|]. apply Hdeny; [|reflexivity].
  intros (_ & owner & claimed & Ho & _). discriminate.
Defined.

(** *** Signature verification *)

(** C3 fails on a server without provider credential, where a request
    whose signature recovers to another wallet is answered 500 and not
    401; and for a claimed address that is not a string, where the
    comparison itself throws and the request is answered 400 and not 401. *)
Lemma signature_mismatch_not_always_401 :
  (method Scenario.holder_request = "POST" /\
   all_present (fields Scenario.holder_request) = true /\
   verifyMessage Scenario.unconfigured (MESSAGE_PREFIX ++ "hello") (JString "0x1b2c")
   = Some Scenario.OTHER /\
   toLowerCase Scenario.OTHER <> toLowerCase Scenario.wallet /\
   http_status (fst (handler Scenario.unconfigured Scenario.holder_request)) = Some 500)
  /\
  (method (Scenario.signed (JNumber 5) Scenario.holder_context) = "POST" /\
   all_present (fields (Scenario.signed (JNumber 5) Scenario.holder_context)) = true /\
   verifyMessage Scenario.holder (MESSAGE_PREFIX ++ "hello") (JString "0x1b2c")
   = Some Scenario.WALLET /\
   call_toLowerCase (JNumber 5) <> Some (toLowerCase Scenario.WALLET) /\
   http_status (fst (handler Scenario.holder
                             (Scenario.signed (JNumber 5) Scenario.holder_context)))
   = Some 400).
Proof.
  split.
  - repeat (split; [reflexivity|]). split; [vm_compute; discriminate|reflexivity].
  - repeat (split; [reflexivity|]). split; [discriminate|reflexivity].
Qed.

(** C3, amended.  For a POST request with non-empty address, signature
    and input, on a server whose provider credential is set, and with a
    claimed address that is a string: when recovery from the signature
    over the prefix followed by the input succeeds and the recovered
    address is the claimed one up to letter case, verification passes and
    the handler goes on to the ownership check; when recovery succeeds
    and the addresses differ, the request is answered 401; when recovery
    throws (or the message cannot be built), it is answered 400. *)
Theorem verification_outcomes w req claimed :
  method req = "POST" ->
  all_present (fields req) = true ->
  env_set (OPENAI_API_KEY w) = true ->
  address (fields req) = JString claimed ->
  match string_plus MESSAGE_PREFIX (input (fields req)) with
  | Some expectedMessage =>
      match verifyMessage w expectedMessage (signature (fields req)) with
      | Some recovered =>
          if (toLowerCase recovered =? toLowerCase claimed)%string
          then exists t, admission w req = (t, Normal (rpc_url w, fields req)) /\
                         In (EVerifyMessage expectedMessage (signature (fields req))) t
          else answered (fst (handler w req)) 401
                        (error_object "Signature does not match address")
      | None => answered (fst (handler w req)) 400 (error_object "Invalid signature")
      end
  | None => answered (fst (handler w req)) 400 (error_object "Invalid signature")
  end.
Proof.
  intros Hm Hp He Ha.
  destruct (admission_post w req Hm) as (hs & Hhs & Heq).
  rewrite Hp, He, verify_signature_eq, Ha in Heq. cbn [call_toLowerCase] in Heq.
  apply headers_silent in Hhs.
  destruct (string_plus MESSAGE_PREFIX (input (fields req))) as [msg|].
  - destruct (verifyMessage w msg (signature (fields req))) as [recovered|].
    + destruct (toLowerCase recovered =? toLowerCase claimed)%string.
      * eexists. split; [exact Heq|]. cbn [fst]. in_trace.
      * cbn [fst snd] in Heq. rewrite (handler_of_admission_return w req _ Heq).
        cbn [fst].
        replace (hs ++ [EVerifyMessage msg (signature (fields req)); EStatus 401;
                        EJson (error_object "Signature does not match address")])%list
          with ((hs ++ [EVerifyMessage msg (signature (fields req))])
                  ++ [EStatus 401;
                      EJson (error_object "Signature does not match address")])%list
          by (now rewrite <- app_assoc).
        apply answered_reply. apply Forall_app. split; [assumption|].
        repeat constructor.
    + cbn [fst snd] in Heq. rewrite (handler_of_admission_return w req _ Heq).
      cbn [fst].
      replace (hs ++ [EVerifyMessage msg (signature (fields req));
                      EConsole LError "signature verify failed"; EStatus 400;
                      EJson (error_object "Invalid signature")])%list
        with ((hs ++ [EVerifyMessage msg (signature (fields req));
                      EConsole LError "signature verify failed"])
                ++ [EStatus 400; EJson (error_object "Invalid signature")])%list
        by (now rewrite <- app_assoc).
      apply answered_reply. apply Forall_app. split; [assumption|].
      repeat constructor.
  - cbn [fst snd] in Heq. rewrite (handler_of_admission_return w req _ Heq).
    cbn [fst].
    replace (hs ++ [EConsole LError "signature verify failed"; EStatus 400;
                    EJson (error_object "Invalid signature")])%list
      with ((hs ++ [EConsole LError "signature verify failed"])
              ++ [EStatus 400; EJson (error_object "Invalid signature")])%list
      by (now rewrite <- app_assoc).
    apply answered_reply. apply Forall_app. split; [assumption|].
    repeat constructor.
Qed.

(** The three outcomes: the wallet's own signature passes, another
    wallet's is answered 401, an undecodable one 400. *)
Lemma verification_outcomes_three :
  (exists t, admission Scenario.holder Scenario.holder_request
             = (t, Normal (rpc_url Scenario.holder, fields Scenario.holder_request)) /\
             In (EVerifyMessage (MESSAGE_PREFIX ++ "hello") (JString "0x1b2c")) t) /\
  answered (fst (handler Scenario.impostor Scenario.holder_request)) 401
           (error_object "Signature does not match address") /\
  answered (fst (handler Scenario.garbled Scenario.holder_request)) 400
           (error_object "Invalid signature").
Proof.
  split; [|split].
  - exact (verification_outcomes Scenario.holder Scenario.holder_request
             Scenario.wallet eq_refl eq_refl eq_refl eq_refl).
  - exact (verification_outcomes Scenario.impostor Scenario.holder_request
             Scenario.wallet eq_refl eq_refl eq_refl eq_refl).
  - exact (verification_outcomes Scenario.garbled Scenario.holder_request
             Scenario.wallet eq_refl eq_refl eq_refl eq_refl).
Defined.

(** *** The provider call *)

(** C6. When the provider answers with a status outside 200-299, or with
    no body, the request is answered 500 with the provider's status and
    body text in the document; no write to the caller was attempted, no
    streaming header was set, and the caller received no body bytes. *)
Theorem upstream_refusal_answered_500 w req resp :
  reaches_provider w req ->
  fetch w (openai_request w (input (fields req))) = Some resp ->
  (status resp < 200 \/ 299 < status resp) \/ oa_body resp = None ->
  answered (fst (handler w req)) 500 (upstream_error resp) /\
  get (upstream_error resp) "status" = Some (JNumber (status resp)) /\
  (forall body, text resp = Some body ->
                get (upstream_error resp) "body" = Some (JString body)) /\
  Forall (fun e => is_write e = false /\ is_streaming_header e = false)
         (fst (handler w req)) /\
  received (replay (fst (handler w req))) = [].
Proof.
  intros Hreach Hf Hbad.
  apply reaches_provider_gate in Hreach as (t & a & Hg).
  pose proof (gate_fields w req t a Hg) as ->.
  assert (Hr : refused resp = true).
  { unfold refused, ok. destruct Hbad as [[Hlo|Hhi]| ->].
    - replace (200 <=? status resp) with false by (symmetry; apply Z.leb_gt; lia).
      reflexivity.
    - replace (status resp <=? 299) with false by (symmetry; apply Z.leb_gt; lia).
      now rewrite andb_false_r.
    - apply orb_true_r. }
  pose proof (gate_trace_silent w req t _ Hg) as Hs.
  pose proof (gate_before_proxy w req) as Hbp.
  pose proof (gate_no_streaming_header w req) as Hsh.
  rewrite handler_gate, Hg in *. cbn [fst snd] in *.
  rewrite (proxy_refused w _ resp Hf Hr). cbn [fst].
  set (pre := (t ++ [EFetch (openai_request w (input (fields req))); EText;
                     EConsole LError "OpenAI responded with error"])%list).
  assert (Heq : (t ++ [EFetch (openai_request w (input (fields req))); EText;
                       EConsole LError "OpenAI responded with error";
                       EStatus 500; EJson (upstream_error resp)])%list
                = (pre ++ [EStatus 500; EJson (upstream_error resp)])%list)
    by (subst pre; now rewrite <- app_assoc).
  rewrite Heq.
  assert (Hpre : Forall (fun e => silent e = true) pre)
    by (subst pre; apply Forall_app; split; [assumption|repeat constructor]).
  split; [now apply answered_reply|].
  split; [reflexivity|].
  split; [intros body Hb; cbn; now rewrite Hb|].
  split.
  - subst pre. rewrite <- app_assoc. apply Forall_app. split.
    + rewrite Forall_forall in *. intros e He. split; [apply Hbp|apply Hsh]; exact He.
    + repeat constructor.
  - unfold replay. rewrite replay_from_app.
    pose proof (replay_from_silent pre fresh Hpre unsent_fresh)
      as (_ & Hh & Hrcv & _ & _).
    cbn. unfold headersSent. now rewrite Hh.
Qed.

(** A rate-limited request: 500 with the provider's 429 and its text. *)
Lemma upstream_refusal_rate_limited :
  answered (fst (handler Scenario.rate_limited Scenario.holder_request)) 500
    (JObject [ ("error", JString "OpenAI request failed");
               ("status", JNumber 429);
               ("body", JString "slow") ]) /\
  received (replay (fst (handler Scenario.rate_limited Scenario.holder_request))) = [].
Proof.
  pose proof (upstream_refusal_answered_500 Scenario.rate_limited
                Scenario.holder_request
                Scenario.too_many
                (gate_reaches_provider Scenario.rate_limited Scenario.holder_request
                   _ _ eq_refl)
                eq_refl (or_introl (or_intror eq_refl)))
    as (Hans & _ & _ & _ & Hrcv).
  exact (conj Hans Hrcv).
Defined.

(** *** The body of a successful response *)

(** The handler neither reads the body of the provider's response nor
    writes to the caller: every reply is a [res.json] or the [res.end] of
    the pre-flight. *)
Lemma handler_no_stream_io w req :
  Forall (fun e => is_read e = false /\ is_write e = false) (fst (handler w req)).
Proof.
  pose proof (gate_before_proxy w req) as Hbp.
  assert (Hgate : Forall (fun e => is_read e = false /\ is_write e = false)
                         (fst (gate w req))).
  { revert Hbp. apply Forall_impl. intros e (_ & H). exact H. }
  destruct (gate w req) as [t [a| |]] eqn:Hg;
    [|rewrite handler_gate, Hg; exact Hgate..].
  destruct (provider_stage_answers w req t a Hg) as (pre & payload & _ & Hh & _).
  pose proof (gate_fields w req t a Hg) as ->.
  rewrite handler_gate, Hg. cbn [fst snd] in *.
  apply Forall_app. split; [assumption|].
  destruct (fetch w (openai_request w (input (fields req)))) as [resp|] eqn:Hf.
  - destruct (refused resp) eqn:Hr.
    + rewrite (proxy_refused w _ resp Hf Hr). repeat constructor.
    + rewrite (proxy_no_reader w _ resp Hf Hr). repeat constructor.
  - rewrite (proxy_fetch_fails w _ Hf). repeat constructor.
Qed.

Lemma received_nothing t :
  Forall (fun e => is_read e = false /\ is_write e = false) t ->
  forall r, received (replay_from r t) = received r.
Proof.
  induction 1 as [|e t (_ & He) _ IH]; intros r; [reflexivity|].
  cbn [replay_from fold_left]. fold (replay_from (apply r e) t). rewrite IH.
  destruct e; try discriminate; cbn [apply]; try reflexivity.
  - now destruct (headersSent r).
  - now destruct (headersSent r).
  - unfold flush. now destruct (head r).
Qed.

(** C7, at a stream of two chunks.  The wallet holds a token and its
    request is let through; the provider answers 200 and streams [hi] in
    two chunks to a normal end.  The handler sets the streaming headers,
    fails to get a reader, and answers 500: it makes no read and no
    write, and the caller receives none of the bytes the claim
    promises. *)
Theorem stream_never_reaches_caller :
  let w := Scenario.holder in
  let req := Scenario.holder_request in
  fetch w (openai_request w (input (fields req)))
  = Some (Scenario.streaming [[x68]; [x69]]) /\
  ok (Scenario.streaming [[x68]; [x69]]) = true /\
  In (EFetch (openai_request w (input (fields req)))) (fst (handler w req)) /\
  In (EConsole LError "streaming error") (fst (handler w req)) /\
  http_status (fst (handler w req)) = Some 500 /\
  document (replay (fst (handler w req)))
  = Some (error_object "Internal server error") /\
  Forall (fun e => is_read e = false /\ is_write e = false) (fst (handler w req)) /\
  received (replay (fst (handler w req))) = [] /\
  received (replay (fst (handler w req))) <> [x68; x69; x0a; x0a].
Proof.
  cbv zeta. split; [reflexivity|]. split; [reflexivity|].
  split; [vm_compute; auto 20|]. split; [vm_compute; auto 20|].
  split; [reflexivity|]. split; [reflexivity|].
  split; [apply handler_no_stream_io|]. split; [reflexivity|].
  vm_compute. discriminate.
Qed.

(** X3. A request that is let through to the provider and gets a
    success with a body is answered 500 [Internal server error]: the
    handler sets the three streaming headers, the call for a reader on
    the body throws, the failure is logged, and nothing of the body is
    read or forwarded. *)
Theorem provider_success_answered_500 w req resp :
  reaches_provider w req ->
  fetch w (openai_request w (input (fields req))) = Some resp ->
  ok resp = true -> oa_body resp <> None ->
  answered (fst (handler w req)) 500 (error_object "Internal server error") /\
  In (EConsole LError "streaming error") (fst (handler w req)) /\
  (forall e, In e streaming_headers -> In e (fst (handler w req))) /\
  Forall (fun e => is_read e = false /\ is_write e = false) (fst (handler w req)) /\
  received (replay (fst (handler w req))) = [].
Proof.
  intros Hreach Hf Hok Hb.
  assert (Hr : refused resp = false).
  { unfold refused. rewrite Hok. now destruct (oa_body resp). }
  apply reaches_provider_gate in Hreach as (t & a & Hg).
  destruct (provider_stage_answers w req t a Hg) as (pre & payload & Hpre & Hh & Hp).
  rewrite Hf, Hr in Hp. subst payload.
  pose proof (handler_no_stream_io w req) as Hio.
  split; [rewrite Hh; now apply answered_reply|].
  pose proof (gate_fields w req t a Hg) as ->.
  assert (Ht : fst (handler w req)
               = (t ++ EFetch (openai_request w (input (fields req)))
                    :: streaming_headers
                    ++ [EConsole LError "streaming error"; EStatus 500;
                        EJson (error_object "Internal server error")])%list).
  { rewrite handler_gate, Hg. cbn [fst snd].
    now rewrite (proxy_no_reader w _ resp Hf Hr). }
  split; [rewrite Ht; unfold streaming_headers; in_trace|].
  split.
  - intros e He. rewrite Ht. apply in_or_app. right. right.
    apply in_or_app. now left.
  - split; [assumption|]. unfold replay. now rewrite received_nothing.
Qed.

Lemma provider_success_holder :
  answered (fst (handler Scenario.holder Scenario.holder_request)) 500
           (error_object "Internal server error") /\
  received (replay (fst (handler Scenario.holder Scenario.holder_request))) = [].
Proof.
  pose proof (provider_success_answered_500 Scenario.holder Scenario.holder_request
                (Scenario.streaming [[x68]; [x69]])
                (gate_reaches_provider Scenario.holder Scenario.holder_request
                   _ _ eq_refl)
                eq_refl eq_refl ltac:(discriminate))
    as (Hans & _ & _ & _ & Hrcv).
  exact (conj Hans Hrcv).
Defined.

(** *** UTF-8: the bit arithmetic of the decoder and the encoder *)

Module Utf8Facts.

Import Utf8.
Local Open Scope N_scope.











End Utf8Facts.


(** *** No exception leaves the handler *)

Section Completes.

Context {E : Type}.

Lemma contained_ret {A} (a : A) : contained (ret (E:=E) a).
Proof. discriminate. Qed.

Lemma contained_return {A} : contained (return_ (E:=E) (A:=A)).
Proof. discriminate. Qed.

Lemma contained_emit e : contained (emit (E:=E) e).
Proof. discriminate. Qed.

Lemma contained_bind {A B} (m : M E A) (f : A -> M E B) :
  contained m -> (forall a, contained (f a)) -> contained (bind m f).
Proof.
  unfold contained, bind. intros Hm Hf.
  destruct m as [t [a| |]]; cbn [snd] in *; try discriminate; [|congruence].
  specialize (Hf a). destruct (f a) as [t' c]. exact Hf.
Qed.

Lemma contained_try_catch {A} (body handler : M E A) :
  contained handler -> contained (try_catch body handler).
Proof.
  unfold contained, try_catch. intros Hh.
  destruct body as [t [a| |]]; cbn [snd]; try discriminate.
  destruct handler as [t' c]. exact Hh.
Qed.

Lemma contained_when c (block : M E unit) :
  contained block -> contained (when c block).
Proof. intros Hb. destruct c; [exact Hb|discriminate]. Qed.

End Completes.

Ltac contained :=
  repeat first
    [ apply contained_ret | apply contained_return | apply contained_emit
    | apply contained_try_catch
    | apply contained_bind; [|intros ?]
    | apply contained_when
    | match goal with
      | |- contained (if ?c then _ else _) => destruct c
      end ].

(** The destructuring of line 32 and the two reads of lines 65 and 66
    stand outside every [try]: what keeps them from throwing is their
    guards. *)
Lemma gate_contained w req : contained (gate w req).
Proof.
  unfold gate, admission.
  apply contained_bind.
  - apply contained_bind; [unfold cors, reply; contained|]. intros _.
    apply contained_bind.
    { unfold basic_checks, reply. rewrite destructured_fields.
      change (lift (Some (fields req))) with (ret (E:=Event) (fields req)).
      contained. }
    intros f. unfold env_checks, verify_signature, reply. contained.
  - intros a. rewrite ownership_check_eq. unfold entitlement, reply. contained.
Qed.

Lemma proxy_returns w input : snd (proxy w input) = Return.
Proof.
  destruct (fetch w (openai_request w input)) as [resp|] eqn:Hf.
  - destruct (refused resp) eqn:Hr.
    + now rewrite (proxy_refused w input resp Hf Hr).
    + now rewrite (proxy_no_reader w input resp Hf Hr).
  - now rewrite (proxy_fetch_fails w input Hf).
Qed.

(** X5. Whatever the world does, the handler ends by returning: no
    exception of the signature library, the read-node, the provider or
    the socket leaves it. *)
Theorem handler_always_returns w req : snd (handler w req) = Return.
Proof.
  pose proof (gate_contained w req) as Hg. unfold contained in Hg.
  rewrite handler_gate.
  destruct (gate w req) as [t [a| |]]; cbn [snd] in *.
  - apply proxy_returns.
  - reflexivity.
  - congruence.
Qed.

(** *** Methods, context and configuration *)

(** X6. A request that is neither POST nor the OPTIONS pre-flight is
    answered 405 and makes no outbound call. *)
Theorem other_method_answered_405 w req :
  method req <> "POST" -> method req <> "OPTIONS" ->
  answered (fst (handler w req)) 405 (error_object "Method not allowed") /\
  Forall (fun e => is_outbound e = false) (fst (handler w req)).
Proof.
  intros Hpost Hopt.
  apply String.eqb_neq in Hpost. apply String.eqb_neq in Hopt.
  destruct (cors_headers w req Hopt) as (hs & Hc & Hhs).
  assert (Hh : handler w req
               = ((hs ++ [EStatus 405; EJson (error_object "Method not allowed")])%list,
                  Return)).
  { apply handler_of_admission_return. unfold admission, basic_checks.
    rewrite Hc, Hpost. reflexivity. }
  rewrite Hh. cbn [fst]. split.
  - apply answered_reply. now apply headers_silent.
  - apply Forall_app. split; [|repeat constructor].
    revert Hhs. apply Forall_impl. exact header_not_outbound.
Qed.

Lemma other_method_get :
  answered (fst (handler Scenario.holder
                         {| method := "GET"; origin := None; body := JUndefined |}))
           405 (error_object "Method not allowed").
Proof.
  refine (proj1 (other_method_answered_405 Scenario.holder
                   {| method := "GET"; origin := None; body := JUndefined |} _ _));
    discriminate.
Defined.

(** X7. The OPTIONS pre-flight is answered 200 with the CORS headers and
    an empty body, and makes no outbound call. *)
Theorem preflight_answered_200 w req :
  method req = "OPTIONS" ->
  http_status (fst (handler w req)) = Some 200 /\
  received (replay (fst (handler w req))) = [] /\
  document (replay (fst (handler w req))) = None /\
  finished (replay (fst (handler w req))) = true /\
  Forall (fun e => is_outbound e = false) (fst (handler w req)).
Proof.
  intros Hm.
  assert (Hh : exists hs, Forall (fun e => is_header e = true) hs /\
                 handler w req = ((hs ++ [EStatus 200; EEnd])%list, Return)).
  { unfold handler, admission, cors. rewrite Hm.
    change ("OPTIONS" =? "OPTIONS")%string with true.
    destruct (match origin req with
              | Some o => _
              | None => false
              end); cbn [when bind emit return_ app].
    - exists [ESetHeader "Access-Control-Allow-Origin"
                         match origin req with Some o => o | None => EmptyString end;
              ESetHeader "Access-Control-Allow-Methods" "GET,POST,OPTIONS";
              ESetHeader "Access-Control-Allow-Headers" "Content-Type,Authorization"].
      split; [repeat constructor|reflexivity].
    - exists [ESetHeader "Access-Control-Allow-Methods" "GET,POST,OPTIONS";
              ESetHeader "Access-Control-Allow-Headers" "Content-Type,Authorization"].
      split; [repeat constructor|reflexivity]. }
  destruct Hh as (hs & Hhs & ->). cbn [fst].
  pose proof (replay_from_silent hs fresh (headers_silent hs Hhs) unsent_fresh)
    as (Hs & Hh & Hr & Hd & Hf).
  unfold http_status, replay. rewrite replay_from_app.
  set (r := replay_from fresh hs) in *. clearbody r.
  cbn. unfold flush. rewrite Hh. cbn. rewrite Hr, Hd.
  repeat (split; [reflexivity|]).
  apply Forall_app. split; [|repeat constructor].
  revert Hhs. apply Forall_impl. exact header_not_outbound.
Qed.

Lemma preflight_from_site :
  http_status (fst (handler Scenario.holder
                            {| method := "OPTIONS";
                               origin := Some "https://cyberpetsreboot.xyz";
                               body := JUndefined |})) = Some 200.
Proof.
  exact (proj1 (preflight_answered_200 Scenario.holder
                  {| method := "OPTIONS"; origin := Some "https://cyberpetsreboot.xyz";
                     body := JUndefined |} eq_refl)).
Defined.

(** X8. A verified request whose context names no contract is answered
    400 without any read-node lookup or provider call. *)
Theorem missing_contract_answered_400 w req t a :
  admission w req = (t, Normal a) ->
  truthy (nftContract (fields req)) = false ->
  answered (fst (handler w req)) 400 (error_object "Missing nft_contract in context") /\
  Forall (fun e => is_read_node_call e = false /\ is_fetch e = false)
         (fst (handler w req)).
Proof.
  intros Ha Hc.
  pose proof (admission_normal_inv w req t a Ha) as (_ & -> & _).
  pose proof (admission_no_lookup w req) as Hl.
  pose proof (admission_before_proxy w req) as Hp.
  rewrite Ha in Hl, Hp. cbn [fst] in Hl, Hp.
  rewrite handler_gate, (gate_of_admission w req t _ Ha). cbn [fst snd].
  rewrite (ownership_check_no_contract w _ _ Hc). cbn [fst snd]. split.
  - apply answered_reply. now apply (admission_trace_silent w req t _ Ha).
  - apply Forall_app. split; [|repeat constructor].
    rewrite Forall_forall in *. intros e He. split; [now apply Hl|now apply Hp].
Qed.

Lemma missing_contract_no_context :
  answered (fst (handler Scenario.holder
                         (Scenario.signed (JString Scenario.wallet) JUndefined)))
           400 (error_object "Missing nft_contract in context").
Proof.
  exact (proj1 (missing_contract_answered_400 Scenario.holder
                  (Scenario.signed (JString Scenario.wallet) JUndefined)
                  _ _ eq_refl eq_refl)).
Defined.

(** X9. A POST request with all required fields, on a server without
    provider credential, is answered 500 before the signature is looked
    at and without any outbound call. *)
Theorem missing_credential_answered_500 w req :
  method req = "POST" -> all_present (fields req) = true ->
  env_set (OPENAI_API_KEY w) = false ->
  answered (fst (handler w req)) 500
           (error_object "Server misconfigured (missing OPENAI_API_KEY)") /\
  Forall (fun e => is_outbound e = false) (fst (handler w req)).
Proof.
  intros Hm Hp He.
  destruct (admission_post w req Hm) as (hs & Hhs & Heq).
  rewrite Hp, He in Heq. rewrite (handler_of_admission_return w req _ Heq).
  cbn [fst]. split.
  - replace (hs ++ [EConsole LError "OPENAI_API_KEY missing"; EStatus 500;
                    EJson (error_object "Server misconfigured (missing OPENAI_API_KEY)")])%list
      with ((hs ++ [EConsole LError "OPENAI_API_KEY missing"])
              ++ [EStatus 500;
                  EJson (error_object "Server misconfigured (missing OPENAI_API_KEY)")])%list
      by (now rewrite <- app_assoc).
    apply answered_reply. apply Forall_app. split; [now apply headers_silent|].
    repeat constructor.
  - apply Forall_app. split; [|repeat constructor].
    revert Hhs. apply Forall_impl. exact header_not_outbound.
Qed.

Lemma missing_credential_unconfigured :
  answered (fst (handler Scenario.unconfigured Scenario.holder_request)) 500
           (error_object "Server misconfigured (missing OPENAI_API_KEY)").
Proof.
  exact (proj1 (missing_credential_answered_500 Scenario.unconfigured
                  Scenario.holder_request eq_refl eq_refl eq_refl)).
Defined.

(* ================================================================= *)
(** ** Further properties of the handler *)

Import Reading.

(** *** The CORS block *)

Lemma in_bind_prefix {E A B} (m : M E A) (f : A -> M E B) e :
  In e (fst m) -> In e (fst (bind m f)).
Proof.
  unfold bind. destruct m as [t [a| |]]; cbn [fst]; auto.
  destruct (f a) as [t' c]. cbn [fst]. intros H. apply in_or_app. now left.
Qed.

Lemma includes_In items s : includes items s = true <-> In s items.
Proof.
  unfold includes. rewrite existsb_exists. split.
  - intros (x & Hx & Heq). apply String.eqb_eq in Heq. now subst.
  - intros H. exists s. split; [assumption|apply String.eqb_refl].
Qed.

(** The allow-origin header is set by the CORS block only, for a listed
    origin. *)
Lemma cors_allow_origin w req v :
  In (ESetHeader ALLOW_ORIGIN v) (fst (cors w req)) <->
  origin req = Some v /\ v <> EmptyString /\ includes (allowedOrigins w) v = true.
Proof.
  unfold cors. fold (allowedOrigins w).
  destruct (origin req) as [o|].
  - destruct (negb (o =? EmptyString)%string && includes (allowedOrigins w) o) eqn:Hc.
    + apply andb_true_iff in Hc as (Hne & Hin).
      apply negb_true_iff, String.eqb_neq in Hne.
      destruct (method req =? "OPTIONS")%string; cbn; split.
      * intros [H|[H|[H|[H|[H|[]]]]]]; try discriminate.
        inversion H; subst. auto.
      * intros (H & _ & _). inversion H; subst. now left.
      * intros [H|[H|[H|[]]]]; try discriminate. inversion H; subst. auto.
      * intros (H & _ & _). inversion H; subst. now left.
    + destruct (method req =? "OPTIONS")%string; cbn; split;
        try (intros (H & Hne & Hin); inversion H; subst;
             apply String.eqb_neq in Hne; rewrite Hne, Hin in Hc; discriminate);
        intros H; repeat (destruct H as [H|H]; try discriminate); destruct H.
  - destruct (method req =? "OPTIONS")%string; cbn; split;
      try (intros (H & _); discriminate);
      intros H; repeat (destruct H as [H|H]; try discriminate); destruct H.
Qed.

Lemma in_bind_inv {E A B} (m : M E A) (f : A -> M E B) e :
  In e (fst (bind m f)) -> In e (fst m) \/ exists a, In e (fst (f a)).
Proof.
  unfold bind. destruct m as [t [a| |]]; cbn [fst]; auto.
  destruct (f a) as [t' c] eqn:Hf. cbn [fst]. intros H.
  apply in_app_or in H as [H|H]; [now left|].
  right. exists a. now rewrite Hf.
Qed.

Lemma stream_io_trace (P : Event -> Prop) w n pending ending :
  (forall e, is_stream_io e = true -> P e) ->
  Forall P (fst (read_loop w n pending ending)).
Proof.
  intros HP. eapply Forall_impl; [|apply read_loop_io]. exact HP.
Qed.

(** After the CORS block no call sets the allow-origin header. *)
Lemma after_cors_no_allow_origin w req :
  (forall f,
      Forall (fun e => forall v, e <> ESetHeader ALLOW_ORIGIN v)
             (fst (RPC_URL <- env_checks w ;; verify_signature w f ;;
                   ret (RPC_URL, f))%run)) /\
  Forall (fun e => forall v, e <> ESetHeader ALLOW_ORIGIN v)
         (fst (basic_checks req)) /\
  (forall a,
      Forall (fun e => forall v, e <> ESetHeader ALLOW_ORIGIN v)
             (fst (ownership_check w (fst a) (snd a) ;;
                   proxy w (input (snd a)))%run)).
Proof.
  split; [|split].
  - intros f. unfold env_checks, verify_signature.
    trace_forall; try apply reply_trace; intros; discriminate.
  - unfold basic_checks. trace_forall; try apply reply_trace; intros; discriminate.
  - intros a. unfold ownership_check, entitlement, owner_step, balance_step, proxy, res_write_call.
    cbv zeta.
    trace_forall; try apply reply_trace; intros; discriminate.
Qed.

(** The allow-origin header is set, in a whole run, for a listed origin
    only, and with that origin as its value. *)
Lemma handler_allow_origin w req v :
  In (ESetHeader ALLOW_ORIGIN v) (fst (handler w req)) <->
  origin req = Some v /\ v <> EmptyString /\ In v (allowedOrigins w).
Proof.
  rewrite <- includes_In, <- cors_allow_origin.
  destruct (after_cors_no_allow_origin w req) as (Henv & Hbasic & Hrest).
  unfold handler, admission. split.
  - intros H. apply in_bind_inv in H as [H|(a & H)].
    + apply in_bind_inv in H as [H|(u & H)]; [assumption|].
      apply in_bind_inv in H as [H|(f & H)].
      * rewrite Forall_forall in Hbasic. exfalso. exact (Hbasic _ H v eq_refl).
      * specialize (Henv f). rewrite Forall_forall in Henv.
        exfalso. exact (Henv _ H v eq_refl).
    + specialize (Hrest a). rewrite Forall_forall in Hrest.
      exfalso. exact (Hrest _ H v eq_refl).
  - intros H. now do 2 apply in_bind_prefix.
Qed.

(** X10. On every request, whatever its method, the allow-origin header
    is set exactly when the request names an origin of the allowed list,
    and it echoes that origin; with no list configured the allowed
    origins are the three defaults. *)
Theorem allow_origin_set_for_listed_origins w req :
  (forall v,
      In (ESetHeader "Access-Control-Allow-Origin" v) (fst (handler w req)) <->
      origin req = Some v /\ v <> EmptyString /\ In v (allowedOrigins w)) /\
  (env_set (ALLOWED_ORIGINS w) = false -> allowedOrigins w = ALLOWED_DEFAULT).
Proof.
  split; [exact (handler_allow_origin w req)|].
  intros He. unfold allowedOrigins, env_or, env_set in *.
  destruct (ALLOWED_ORIGINS w) as [s|]; [|reflexivity].
  destruct (s =? EmptyString)%string; [reflexivity|discriminate].
Qed.

Lemma allow_origin_site :
  In (ESetHeader "Access-Control-Allow-Origin" "https://cyberpetsreboot.xyz")
     (fst (handler Scenario.holder Scenario.unsigned)) /\
  allowedOrigins Scenario.holder = ALLOWED_DEFAULT.
Proof.
  destruct (allow_origin_set_for_listed_origins Scenario.holder Scenario.unsigned)
    as (Hset & Hdefault).
  split; [|exact (Hdefault eq_refl)].
  apply Hset. split; [reflexivity|]. split; [discriminate|].
  rewrite (Hdefault eq_refl). now left.
Defined.

(** *** The calls of a run, kind by kind *)

(** The trace of the handler, stage after stage: each stage runs only if
    the one before fell through. *)
Lemma handler_trace w req :
  fst (handler w req) =
  (fst (admission w req) ++
   match snd (admission w req) with
   | Normal a =>
       fst (ownership_check w (fst a) (snd a)) ++
       match snd (ownership_check w (fst a) (snd a)) with
       | Normal _ => fst (proxy w (input (snd a)))
       | _ => []
       end
   | _ => []
   end)%list.
Proof.
  unfold handler.
  destruct (admission w req) as [ta [a| |]]; cbn [bind fst snd];
    rewrite ?app_nil_r; try reflexivity.
  destruct (ownership_check w (fst a) (snd a)) as [to [[]| |]]; cbn [bind fst snd];
    rewrite ?app_nil_r; try reflexivity.
  destruct (proxy w (input (snd a))) as [tp cp]. reflexivity.
Qed.

Lemma filter_none {A} (P : A -> bool) (l : list A) :
  Forall (fun x => P x = false) l -> filter P l = [].
Proof.
  induction 1 as [|x l Hx _ IH]; [reflexivity|]. cbn [filter]. now rewrite Hx.
Qed.

Lemma admission_no_chain_call w req :
  Forall (fun e => is_chain_call e = false) (fst (admission w req)).
Proof.
  unfold admission, cors, basic_checks, env_checks, verify_signature.
  trace_forall; try apply reply_trace; reflexivity.
Qed.

Lemma proxy_no_chain_call w input :
  Forall (fun e => is_chain_call e = false) (fst (proxy w input)).
Proof.
  unfold proxy, res_write_call.
  trace_forall; try apply reply_trace; reflexivity.
Qed.

Lemma admission_verified w req t a :
  admission w req = (t, Normal a) ->
  a = (rpc_url w, fields req) /\ method req = "POST" /\
  all_present (fields req) = true /\ env_set (OPENAI_API_KEY w) = true /\
  verified w (fields req).
Proof.
  intros Ha.
  apply admission_normal_inv in Ha
    as (Hm & -> & Hp & He & hs & msg & recovered & claimed & _ & _ & H1 & H2 & H3 & H4).
  repeat (split; [reflexivity || assumption|]).
  exists msg, recovered, claimed. auto.
Qed.

(** X11. The stages short-circuit: the handler constructs a read-node
    client or makes a lookup only for a POST request with all fields
    present, on a configured server, whose signature was verified and
    whose context names a contract. *)
Theorem chain_calls_need_verified_signature w req e :
  In e (fst (handler w req)) -> is_chain_call e = true ->
  method req = "POST" /\ all_present (fields req) = true /\
  env_set (OPENAI_API_KEY w) = true /\ verified w (fields req) /\
  truthy (nftContract (fields req)) = true.
Proof.
  intros Hin He. rewrite handler_trace in Hin.
  pose proof (admission_no_chain_call w req) as Hadm.
  apply in_app_or in Hin as [Hin|Hin].
  { exfalso. rewrite Forall_forall in Hadm. apply Hadm in Hin. congruence. }
  destruct (admission w req) as [t [a| |]] eqn:Ha; cbn [snd] in Hin;
    try contradiction.
  pose proof (admission_verified w req t a Ha) as (-> & Hm & Hp & Hk & Hv).
  repeat (split; [assumption|]). cbn [fst snd] in Hin.
  destruct (truthy (nftContract (fields req))) eqn:Hc; [reflexivity|].
  exfalso. rewrite (ownership_check_no_contract w _ _ Hc) in Hin.
  cbn in Hin. destruct Hin as [<-|[<-|[]]]; discriminate.
Qed.

Lemma chain_calls_holder :
  verified Scenario.holder (fields Scenario.holder_request) /\
  truthy (nftContract (fields Scenario.holder_request)) = true.
Proof.
  refine (proj2 (proj2 (proj2
    (chain_calls_need_verified_signature Scenario.holder Scenario.holder_request
       (EBalanceOf Scenario.COLLECTION (JString Scenario.wallet)) _ eq_refl)))).
  vm_compute. auto 12.
Defined.

Lemma owner_step_trace w c tok a :
  exists logs,
    Forall (fun e => is_chain_call e = false) logs /\
    fst (owner_step w c tok a) =
    if nullish tok then [] else EOwnerOf c tok :: logs.
Proof.
  unfold owner_step. destruct (nullish tok); cbn [negb].
  - exists []. split; [constructor|reflexivity].
  - cbn [bind emit app].
    destruct (ownerOf w c tok) as [owner|];
      cbn [lift ret throw try_catch bind app fst snd emit].
    + destruct (owner =? EmptyString)%string; cbn [negb].
      * exists []. split; [constructor|reflexivity].
      * destruct (call_toLowerCase a);
          cbn [lift ret throw try_catch bind app fst snd emit];
          eexists; (split; [|reflexivity]); repeat constructor.
    + eexists. split; [|reflexivity]. repeat constructor.
Qed.

Lemma balance_step_trace w c a :
  exists logs,
    Forall (fun e => is_chain_call e = false) logs /\
    fst (balance_step w c a) = EBalanceOf c a :: logs.
Proof.
  unfold balance_step. cbn [bind emit app].
  destruct (balanceOf w c a) as [bal|];
    cbn [lift ret throw try_catch bind app fst snd emit].
  - destruct (BigNumber_toNumber bal);
      cbn [lift ret throw try_catch bind app fst snd emit];
      eexists; (split; [|reflexivity]); repeat constructor.
  - eexists. split; [|reflexivity]. repeat constructor.
Qed.

(** The read-node side of a run, in order: the provider, the contract,
    the owner lookup if a token id was given, the balance lookup unless
    the owner matched. *)
Lemma ownership_chain_calls w rpc f :
  filter is_chain_call (fst (ownership_check w rpc f)) =
  if truthy (nftContract f) then
    ENewProvider rpc ::
    if JsonRpcProvider w rpc then
      ENewContract (nftContract f) ::
      if Contract w (nftContract f) then
        ((if nullish (nftTokenId f) then []
          else [EOwnerOf (nftContract f) (nftTokenId f)])
         ++ (if owner_matches w (nftContract f) (nftTokenId f) (address f) then []
             else [EBalanceOf (nftContract f) (address f)]))%list
      else []
    else []
  else [].
Proof.
  destruct (truthy (nftContract f)) eqn:Hc.
  2:{ now rewrite (ownership_check_no_contract w rpc f Hc). }
  destruct (JsonRpcProvider w rpc) eqn:Hp.
  2:{ rewrite ownership_check_eq. unfold entitlement. rewrite Hc, Hp. reflexivity. }
  destruct (Contract w (nftContract f)) eqn:Hk.
  2:{ rewrite ownership_check_eq. unfold entitlement. rewrite Hc, Hp, Hk. reflexivity. }
  rewrite (ownership_check_run w rpc f Hc Hp Hk).
  destruct (owner_step_trace w (nftContract f) (nftTokenId f) (address f))
    as (lo & Hlo & Ho).
  destruct (balance_step_trace w (nftContract f) (address f)) as (lb & Hlb & Hb).
  rewrite Ho, Hb.
  assert (Hfo : filter is_chain_call
                  (if nullish (nftTokenId f) then []
                   else EOwnerOf (nftContract f) (nftTokenId f) :: lo)
                = if nullish (nftTokenId f) then []
                  else [EOwnerOf (nftContract f) (nftTokenId f)]).
  { destruct (nullish (nftTokenId f)); [reflexivity|].
    cbn [filter is_chain_call]. now rewrite (filter_none _ _ Hlo). }
  destruct (owner_matches w (nftContract f) (nftTokenId f) (address f)).
  - cbn [fst app filter is_chain_call]. rewrite Hfo. now rewrite app_nil_r.
  - destruct (balance_grants w (nftContract f) (address f)); cbn [fst];
      rewrite ?filter_app; cbn [app filter is_chain_call];
      rewrite ?filter_app, Hfo; cbn [filter is_chain_call];
      rewrite (filter_none _ _ Hlb); cbn [filter is_chain_call app];
      rewrite ?app_nil_r; reflexivity.
Qed.

(** The read-node side of a whole run. *)
Lemma handler_chain_calls w req :
  filter is_chain_call (fst (handler w req)) =
  match snd (admission w req) with
  | Normal _ => filter is_chain_call (fst (ownership_check w (rpc_url w) (fields req)))
  | _ => []
  end.
Proof.
  rewrite handler_trace, filter_app,
    (filter_none _ _ (admission_no_chain_call w req)). cbn [app].
  destruct (admission w req) as [t [a| |]] eqn:Ha; cbn [snd]; try reflexivity.
  pose proof (admission_verified w req t a Ha) as (-> & _). cbn [fst snd].
  rewrite filter_app.
  destruct (snd (ownership_check w (rpc_url w) (fields req)));
    rewrite ?(filter_none _ _ (proxy_no_chain_call w _)); cbn [filter];
    now rewrite app_nil_r.
Qed.

Lemma admission_of_admitted w req :
  admitted w req ->
  exists t, admission w req = (t, Normal (rpc_url w, fields req)).
Proof.
  intros (Hm & Hp & He & msg & recovered & claimed & Hmsg & Hv & Ha & Heq).
  destruct (admission_post w req Hm) as (hs & _ & Hadm).
  rewrite Hp, He, verify_signature_eq, Hmsg, Hv, Ha in Hadm.
  cbn [call_toLowerCase] in Hadm. rewrite Heq, String.eqb_refl in Hadm.
  eexists. exact Hadm.
Qed.

Lemma admitted_iff w req :
  admitted w req <-> exists t a, admission w req = (t, Normal a).
Proof.
  split.
  - intros H. apply admission_of_admitted in H as (t & H). eauto.
  - intros (t & a & H). apply admission_verified in H. unfold admitted. tauto.
Qed.

(** X12. The read-node side of an admitted request whose context names a
    contract, once both clients are constructed: the provider, the
    contract, one owner lookup if the context carries a token id (any
    value but null and undefined, so also token 0), one balance lookup
    unless the owner lookup matched the claimed address; in this order
    and nothing else. *)
Theorem read_node_calls_in_order w req :
  admitted w req ->
  truthy (nftContract (fields req)) = true ->
  clients_ok w (fields req) = true ->
  filter is_chain_call (fst (handler w req)) =
  ([ENewProvider (rpc_url w); ENewContract (nftContract (fields req))]
   ++ (if nullish (nftTokenId (fields req)) then []
       else [EOwnerOf (nftContract (fields req)) (nftTokenId (fields req))])
   ++ (if owner_matches w (nftContract (fields req)) (nftTokenId (fields req))
                        (address (fields req))
       then []
       else [EBalanceOf (nftContract (fields req)) (address (fields req))]))%list.
Proof.
  intros Ha Hc Hk. apply admission_of_admitted in Ha as (t & Ha).
  unfold clients_ok in Hk. apply andb_true_iff in Hk as (Hp & Hk).
  rewrite handler_chain_calls, Ha. cbn [snd].
  rewrite ownership_chain_calls, Hc, Hp, Hk. reflexivity.
Qed.

Lemma read_node_calls_token_zero :
  filter is_chain_call (fst (handler Scenario.stranger Cases.token_zero_request)) =
  [ENewProvider "https://cloudflare-eth.com";
   ENewContract Scenario.COLLECTION;
   EOwnerOf Scenario.COLLECTION (JNumber 0);
   EBalanceOf Scenario.COLLECTION (JString Scenario.wallet)].
Proof.
  refine (read_node_calls_in_order Scenario.stranger Cases.token_zero_request
            _ eq_refl eq_refl).
  repeat (split; [reflexivity|]).
  exists "I am requesting an AI response: hello"%string, Scenario.WALLET, Scenario.wallet.
  repeat split; reflexivity.
Defined.

(** *** The provider call *)

Lemma proxy_fetch_once w input :
  filter is_fetch (fst (proxy w input)) = [EFetch (openai_request w input)].
Proof.
  destruct (fetch w (openai_request w input)) as [resp|] eqn:Hf.
  2:{ now rewrite (proxy_fetch_fails w input Hf). }
  destruct (refused resp) eqn:Hr.
  - now rewrite (proxy_refused w input resp Hf Hr).
  - now rewrite (proxy_no_reader w input resp Hf Hr).
Qed.

Lemma handler_fetches w req :
  filter is_fetch (fst (handler w req)) =
  match snd (gate w req) with
  | Normal _ => [EFetch (openai_request w (input (fields req)))]
  | _ => []
  end.
Proof.
  rewrite handler_gate.
  assert (Hg : filter is_fetch (fst (gate w req)) = []).
  { apply filter_none. generalize (gate_before_proxy w req).
    apply Forall_impl. now intros e (H & _). }
  destruct (gate w req) as [t [a| |]] eqn:Heq; cbn [fst snd] in *; try assumption.
  rewrite (gate_fields w req t a Heq). cbn [snd].
  now rewrite filter_app, Hg, proxy_fetch_once.
Qed.

(** X13. The provider is called at most once in a run, at the chat
    completions endpoint, with the configured credential as bearer token
    (never an unset one) and a body built around the [input] of the
    request, the one the verified signature was made over. *)
Theorem provider_called_once_with_verified_input w req r :
  In (EFetch r) (fst (handler w req)) ->
  filter is_fetch (fst (handler w req)) = [EFetch r] /\
  url r = "https://api.openai.com/v1/chat/completions" /\
  (exists key, OPENAI_API_KEY w = Some key /\ key <> EmptyString /\
               authorization r = "Bearer " ++ key) /\
  payload r = openaiBody (input (fields req)) /\
  get (payload r) "stream" = Some (JBool true) /\
  verified w (fields req).
Proof.
  intros Hin.
  assert (Hf : In (EFetch r) (filter is_fetch (fst (handler w req)))).
  { apply filter_In. now split. }
  rewrite handler_fetches in *.
  destruct (gate w req) as [t [a| |]] eqn:Hg; cbn [snd] in *; try contradiction.
  destruct Hf as [Hf|[]]. inversion Hf; subst r. clear Hf.
  apply gate_normal_inv in Hg as (ta & to & Ha & _).
  apply admission_verified in Ha as (_ & _ & _ & He & Hv).
  split; [reflexivity|]. split; [reflexivity|]. split.
  - unfold env_set in He. destruct (OPENAI_API_KEY w) as [key|] eqn:Hk; [|discriminate].
    exists key. rewrite <- Hk. split; [reflexivity|]. split.
    + apply negb_true_iff in He. now apply String.eqb_neq.
    + unfold openai_request. cbn [authorization]. now rewrite Hk.
  - auto.
Qed.

Lemma provider_called_once_holder :
  filter is_fetch (fst (handler Scenario.holder Scenario.holder_request))
  = [EFetch (openai_request Scenario.holder (JString "hello"))].
Proof.
  refine (proj1 (provider_called_once_with_verified_input Scenario.holder
                   Scenario.holder_request _ _)).
  vm_compute. auto 12.
Defined.

(** *** The response of the proxy stage *)

Lemma read_loop_step w n value rest ending :
  fst (read_loop w n (value :: rest) ending) =
  (ERead :: EWrite (Utf8.decode value) (res_write w n)
     :: (if res_write w n then [] else [EConsole LWarn "res.write failed"])
     ++ fst (read_loop w (S n) rest ending))%list.
Proof.
  cbn [read_loop]. unfold write, res_write_call.
  destruct (read_loop w (S n) rest ending) as [tl c].
  destruct (res_write w n);
    cbn [bind emit ret app try_catch throw when negb fst snd]; reflexivity.
Qed.

Lemma unsent_record r :
  unsent r ->
  r = {| statusCode := 200; headers := headers r; head := None; received := [];
         document := None; finished := false |}.
Proof. destruct r. unfold unsent. cbn. intros (-> & -> & -> & -> & ->). reflexivity. Qed.

Lemma set_header_same name value hs : In (name, value) (set_header name value hs).
Proof. unfold set_header. apply in_or_app. right. now left. Qed.

Lemma set_header_other name value hs n v :
  (n =? name)%string = false -> In (n, v) hs -> In (n, v) (set_header name value hs).
Proof.
  intros Hn Hin. unfold set_header. apply in_or_app. left.
  apply filter_In. split; [assumption|]. cbn [fst]. now rewrite Hn.
Qed.

(** X14. When the call to the provider throws, the failure is logged and
    the request is answered 500 [Internal server error]; nothing was
    read or written and no streaming header was set. *)
Theorem provider_unreachable_answered_500 w req :
  reaches_provider w req ->
  fetch w (openai_request w (input (fields req))) = None ->
  answered (fst (handler w req)) 500 (error_object "Internal server error") /\
  In (EConsole LError "streaming error") (fst (handler w req)) /\
  Forall (fun e => is_read e = false /\ is_write e = false /\
                   is_streaming_header e = false)
         (fst (handler w req)).
Proof.
  intros Hreach Hf.
  apply reaches_provider_gate in Hreach as (t & a & Hg).
  pose proof (gate_fields w req t a Hg) as ->.
  pose proof (gate_trace_silent w req t _ Hg) as Hs.
  pose proof (gate_before_proxy w req) as Hbp.
  pose proof (gate_no_streaming_header w req) as Hsh.
  rewrite handler_gate, Hg in *. cbn [fst snd] in *.
  rewrite (proxy_fetch_fails w _ Hf). cbn [fst]. split; [|split].
  - replace (t ++ [EFetch (openai_request w (input (fields req)));
                   EConsole LError "streaming error"; EStatus 500;
                   EJson (error_object "Internal server error")])%list
      with ((t ++ [EFetch (openai_request w (input (fields req)));
                   EConsole LError "streaming error"])
              ++ [EStatus 500; EJson (error_object "Internal server error")])%list
      by (repeat (rewrite <- app_assoc; cbn [app]); reflexivity).
    apply answered_reply. apply Forall_app. split; [assumption|repeat constructor].
  - in_trace.
  - apply Forall_app. split; [|repeat constructor].
    rewrite Forall_forall in *. intros e He.
    destruct (Hbp e He) as (_ & H1 & H2). specialize (Hsh e He). auto.
Qed.

Lemma provider_unreachable_offline :
  answered (fst (handler Cases.offline Scenario.holder_request)) 500
           (error_object "Internal server error").
Proof.
  refine (proj1 (provider_unreachable_answered_500 Cases.offline
                   Scenario.holder_request _ eq_refl)).
  eexists. vm_compute. auto 12.
Defined.


(** *** The status line of a run *)

Section Responds.

Context (P : Z -> Prop).

Lemma responds_ret {A} (a : A) : responds P (ret a).
Proof. intros r Hr. exact Hr. Qed.

Lemma responds_throw {A} : responds P (throw (A:=A)).
Proof. intros r Hr. exact Hr. Qed.

Lemma responds_lift {A} (o : option A) : responds P (lift o).
Proof. destruct o; [apply responds_ret|apply responds_throw]. Qed.

Lemma responds_emit e : silent e = true -> responds P (emit e).
Proof. intros He r Hr. cbn. now apply apply_silent. Qed.

Lemma responds_bind {A B} (m : Handler A) (k : A -> Handler B) :
  responds P m -> (forall t a, m = (t, Normal a) -> responds P (k a)) ->
  responds P (bind m k).
Proof.
  intros Hm Hk r Hr. specialize (Hm r Hr).
  destruct m as [t [a| |]]; cbn [bind fst snd] in *; try assumption.
  specialize (Hk t a eq_refl _ Hm).
  destruct (k a) as [t' c]. cbn [fst snd] in *. now rewrite replay_from_app.
Qed.

Lemma responds_try_catch {A} (body handler : Handler A) :
  responds P body -> responds P handler -> responds P (try_catch body handler).
Proof.
  intros Hb Hh r Hr. specialize (Hb r Hr).
  destruct body as [t [a| |]]; cbn [try_catch fst snd] in *; try assumption.
  specialize (Hh _ Hb).
  destruct handler as [t' c]. cbn [fst snd] in *. now rewrite replay_from_app.
Qed.

Lemma responds_when c (block : Handler unit) :
  (c = true -> responds P block) -> responds P (when c block).
Proof. destruct c; intros H; [now apply H|apply responds_ret]. Qed.

(** [return res.status(code).json(payload)] after silent calls. *)
Lemma responds_replying {A} pre code payload :
  Forall (fun e => silent e = true) pre -> P code ->
  responds P (A:=A) ((pre ++ [EStatus code; EJson payload])%list, Return).
Proof.
  intros Hpre Hc r Hr. cbn [fst snd]. rewrite replay_from_app.
  pose proof (replay_from_silent pre r Hpre Hr) as H.
  rewrite (unsent_record _ H). cbn. exists code. eexists. split; [reflexivity|assumption].
Qed.

Lemma responds_reply {A} code payload : P code -> responds P (reply (A:=A) code payload).
Proof. intros Hc. apply (responds_replying []); [constructor|assumption]. Qed.

Lemma responds_silent {A} t (a : A) :
  Forall (fun e => silent e = true) t -> responds P (t, Normal a).
Proof. intros Ht r Hr. now apply replay_from_silent. Qed.

(** [return res.status(200).end()] *)
Lemma responds_ending {A} :
  P 200 -> responds P (A:=A) (bind (emit (EStatus 200)) (fun _ => bind (emit EEnd) (fun _ => return_))).
Proof.
  intros H200 r Hr. cbn. rewrite (unsent_record _ Hr). cbn.
  exists 200. eexists. split; [reflexivity|assumption].
Qed.

End Responds.

Lemma lift_normal {A} (o : option A) t a :
  lift (E:=Event) o = (t, Normal a) -> o = Some a.
Proof. destruct o; cbn; intros H; inversion H; reflexivity. Qed.

Lemma cors_normal w req t a :
  cors w req = (t, Normal a) -> method req <> "OPTIONS".
Proof.
  intros H Hm. unfold cors in H. rewrite Hm in H.
  change ("OPTIONS" =? "OPTIONS")%string with true in H.
  destruct (match origin req with Some o => _ | None => false end);
    cbn in H; discriminate.
Qed.

Lemma cors_responds P w req :
  (method req = "OPTIONS" -> P 200) -> responds P (cors w req).
Proof.
  intros H. unfold cors.
  apply responds_bind; [apply responds_when; intros _; now apply responds_emit|].
  intros _ _ _. apply responds_bind; [now apply responds_emit|].
  intros _ _ _. apply responds_bind; [now apply responds_emit|].
  intros _ _ _. apply responds_when. intros Hm. apply String.eqb_eq in Hm.
  apply responds_ending. auto.
Qed.

Lemma basic_checks_responds P req :
  (method req <> "POST" -> P 405) -> (method req = "POST" -> P 400) ->
  responds P (basic_checks req).
Proof.
  intros H405 H400. unfold basic_checks.
  destruct (method req =? "POST")%string eqn:Hm; cbn [negb when].
  - apply String.eqb_eq in Hm.
    apply responds_bind; [apply responds_ret|]. intros _ _ _.
    apply responds_bind; [apply responds_lift|]. intros _ f _.
    apply responds_bind; [|intros; apply responds_ret].
    apply responds_when. intros _. apply responds_reply. auto.
  - apply String.eqb_neq in Hm.
    apply responds_bind; [|intros t a H; discriminate].
    apply responds_reply. auto.
Qed.

Lemma env_checks_responds P w : P 500 -> responds P (env_checks w).
Proof.
  intros H500. unfold env_checks.
  apply responds_bind.
  { apply responds_when. intros _. apply responds_bind; [now apply responds_emit|].
    intros _ _ _. now apply responds_reply. }
  intros _ _ _. apply responds_bind; [|intros; apply responds_ret].
  apply responds_when. intros _. now apply responds_reply.
Qed.

Lemma verify_signature_responds P w f :
  P 400 -> (mismatched w f -> P 401) -> responds P (verify_signature w f).
Proof.
  intros H400 H401. unfold verify_signature.
  apply responds_try_catch.
  2:{ apply responds_bind; [now apply responds_emit|].
      intros _ _ _. now apply responds_reply. }
  apply responds_bind; [apply responds_lift|]. intros t1 msg Hmsg.
  apply lift_normal in Hmsg.
  apply responds_bind; [now apply responds_emit|]. intros _ _ _.
  apply responds_bind; [apply responds_lift|]. intros t2 recovered Hrec.
  apply lift_normal in Hrec.
  apply responds_bind; [apply responds_lift|]. intros t3 claimed Hcl.
  apply lift_normal in Hcl.
  apply responds_when. intros Hne. apply negb_true_iff, String.eqb_neq in Hne.
  apply responds_reply. apply H401.
  destruct (address f) as [| | | |s| |] eqn:Ha; try discriminate.
  cbn in Hcl. inversion Hcl; subst claimed.
  exists msg, recovered, s. auto.
Qed.

Lemma ownership_check_responds P w rpc f :
  P 400 -> P 500 ->
  (truthy (nftContract f) = true ->
   JsonRpcProvider w rpc && Contract w (nftContract f) = true ->
   owner_matches w (nftContract f) (nftTokenId f) (address f) = false ->
   balance_grants w (nftContract f) (address f) = false -> P 403) ->
  responds P (ownership_check w rpc f).
Proof.
  intros H400 H500 H403.
  destruct (truthy (nftContract f)) eqn:Hc.
  2:{ rewrite (ownership_check_no_contract w rpc f Hc).
      apply (responds_replying P []); [constructor|assumption]. }
  destruct (JsonRpcProvider w rpc && Contract w (nftContract f)) eqn:Hk.
  2:{ destruct (ownership_check_clients_fail w rpc f Hc Hk) as (t & Ht & ->).
      apply responds_replying; [|assumption].
      revert Ht. apply Forall_impl. tauto. }
  pose proof Hk as Hk'. apply andb_true_iff in Hk' as (Hp & Hk').
  rewrite (ownership_check_run w rpc f Hc Hp Hk'). cbv zeta.
  destruct (owner_step_run w (nftContract f) (nftTokenId f) (address f)) as (_ & Ho).
  destruct (balance_step_run w (nftContract f) (address f)) as (_ & logs & Hb & Hlogs).
  apply lookups_silent in Ho. apply lookups_silent in Hlogs.
  assert (H1 : Forall (fun e => silent e = true)
                 ([ENewProvider rpc; ENewContract (nftContract f)]
                  ++ fst (owner_step w (nftContract f) (nftTokenId f) (address f)))%list).
  { apply Forall_app. split; [repeat constructor|assumption]. }
  assert (H2 : Forall (fun e => silent e = true)
                 (([ENewProvider rpc; ENewContract (nftContract f)]
                   ++ fst (owner_step w (nftContract f) (nftTokenId f) (address f)))
                  ++ fst (balance_step w (nftContract f) (address f)))%list).
  { apply Forall_app. split; [assumption|]. rewrite Hb. now constructor. }
  destruct (owner_matches w _ _ _) eqn:Hom; [now apply responds_silent|].
  destruct (balance_grants w _ _) eqn:Hbg; [now apply responds_silent|].
  apply responds_replying; auto.
Qed.

(** The gate replies with a status that tells why, or lets the request
    through with nothing sent. *)
Lemma gate_responds w req : responds (gate_reason w req) (gate w req).
Proof.
  unfold gate, admission.
  apply responds_bind.
  2:{ intros t a Ha. fold (admission w req) in Ha.
      pose proof (admission_verified w req t a Ha) as (-> & Hm & Hp & He & Hv).
      cbn [fst snd].
      apply responds_bind; [|intros; apply responds_ret].
      apply ownership_check_responds; unfold gate_reason; auto 10.
      intros Hc Hk Hom Hbg. do 3 right. left. unfold admitted, clients_ok. auto 10. }
  apply responds_bind.
  { apply cors_responds. unfold gate_reason. auto. }
  intros t1 [] Hcors. apply cors_normal in Hcors.
  apply responds_bind.
  { apply basic_checks_responds; unfold gate_reason; auto 10. }
  intros t2 f Hbasic. apply basic_checks_normal in Hbasic as (Hm & _ & -> & _).
  apply responds_bind.
  { apply env_checks_responds. unfold gate_reason. auto 10. }
  intros t3 rpc _.
  apply responds_bind; [|intros; apply responds_ret].
  apply verify_signature_responds; unfold gate_reason; auto 10.
Qed.

Lemma status_of_head t c hs :
  head (replay t) = Some (c, hs) -> http_status t = Some c.
Proof. unfold http_status. now intros ->. Qed.

(** The status line of a run: the gate's, or, for a request the gate let
    through, the 500 of the proxy stage. *)
Lemma handler_status w req :
  exists c, http_status (fst (handler w req)) = Some c /\
    (gate_reason w req c \/
     ((exists t a, gate w req = (t, Normal a)) /\ c = 500)).
Proof.
  pose proof (gate_responds w req fresh unsent_fresh) as Hg.
  pose proof (gate_contained w req) as Hc. unfold contained in Hc.
  destruct (gate w req) as [t [a| |]] eqn:Heq; cbn [fst snd] in *; [| |congruence].
  - destruct (provider_stage_answers w req t a Heq) as (pre & payload & Hpre & -> & _).
    exists 500. split; [|right; eauto]. cbn [fst].
    exact (proj1 (answered_reply pre 500 payload Hpre)).
  - destruct Hg as (c & hs & Hh & Hreason).
    exists c. split; [|now left].
    rewrite handler_gate, Heq. cbn [fst]. exact (status_of_head _ _ _ Hh).
Qed.




(** X19. The refusals tell their reason: a 405 is sent only for a method
    that is neither POST nor OPTIONS; a 401 only when an address was
    recovered from the signature and is not the claimed one; a 403 only
    to an admitted request whose read-node clients were constructed,
    whose owner lookup did not confirm ownership and whose balance
    lookup returned no balance from 1 to 2^53 - 1. *)
Theorem refusal_statuses_explained w req :
  (http_status (fst (handler w req)) = Some 405 ->
   method req <> "POST" /\ method req <> "OPTIONS") /\
  (http_status (fst (handler w req)) = Some 401 ->
   method req = "POST" /\ mismatched w (fields req)) /\
  (http_status (fst (handler w req)) = Some 403 ->
   admitted w req /\ clients_ok w (fields req) = true /\
   ~ owner_confirmed w (fields req) /\
   forall bal,
     balanceOf w (nftContract (fields req)) (address (fields req)) = Some bal ->
     bal <= 0 \/ MAX_SAFE_INTEGER < bal).
Proof.
  destruct (handler_status w req) as (c & Hc & H).
  rewrite Hc. unfold gate_reason in H.
  split; [|split]; intros Heq; inversion Heq; subst c; clear Heq.
  - destruct H as [H|(_ & H)]; [|discriminate].
    intuition discriminate.
  - destruct H as [H|(_ & H)]; [|discriminate].
    intuition discriminate.
  - destruct H as [H|(_ & H)]; [|discriminate].
    destruct H as [(H & _)|[(H & _)|[(H & _)|[H|[(H & _)|(H & _)]]]]];
      try discriminate.
    destruct H as (_ & Hadm & Hct & Hk & Hom & Hbg).
    split; [assumption|]. split; [assumption|]. split.
    + intros Hown. destruct Hadm as (_ & Hp & _).
      unfold all_present in Hp. apply andb_true_iff in Hp as (Hp & _).
      apply andb_true_iff in Hp as (Hp & _).
      rewrite (owner_confirmed_matches w (fields req) Hp Hown) in Hom. discriminate.
    + intros bal Hbal. unfold balance_grants in Hbg. rewrite Hbal in Hbg.
      unfold BigNumber_toNumber in Hbg.
      destruct (Z.abs bal <=? MAX_SAFE_INTEGER) eqn:Hle.
      * apply Z.ltb_ge in Hbg. now left.
      * apply Z.leb_gt in Hle. lia.
Qed.

Lemma refusal_status_impostor :
  mismatched Scenario.impostor (fields Scenario.holder_request).
Proof.
  exact (proj2 (proj1 (proj2 (refusal_statuses_explained Scenario.impostor
                                Scenario.holder_request)) eq_refl)).
Defined.

(** *** The headers of the response *)

Lemma fst_bind {E A B} (m : M E A) (k : A -> M E B) :
  fst (bind m k) =
  (fst m ++ match snd m with Normal a => fst (k a) | _ => [] end)%list.
Proof.
  unfold bind. destruct m as [t [a| |]]; cbn [fst snd]; rewrite ?app_nil_r;
    try reflexivity.
  now destruct (k a).
Qed.

Lemma set_header_inv name value hs n v :
  In (n, v) (set_header name value hs) -> In (n, v) hs \/ (n = name /\ v = value).
Proof.
  unfold set_header. intros H. apply in_app_or in H as [H|[H|[]]].
  - apply filter_In in H. tauto.
  - inversion H. auto.
Qed.

Section Headers.

Variables (name value : string).
Hypothesis not_content_type : (name =? "Content-Type")%string = false.

(** The header is among those set, and in the head if the head is out. *)
Let carries (r : Response) : Prop :=
  In (name, value) (headers r) /\
  forall c hs, head r = Some (c, hs) -> In (name, value) hs.

(** No call sets the header to another value. *)
Let settled (e : Event) : Prop := forall v, e = ESetHeader name v -> v = value.

Lemma apply_carries r e : settled e -> carries r -> carries (apply r e).
Proof.
  unfold carries, settled. intros He (Hin & Hhead).
  destruct e as [n v|code|p|text [|]| | | | | | | | | |]; cbn [apply]; auto.
  - destruct (headersSent r); cbn; [auto|]. split; [|assumption].
    destruct (n =? name)%string eqn:Hn.
    + apply String.eqb_eq in Hn. subst n. rewrite (He v eq_refl). apply set_header_same.
    + apply set_header_other; [|assumption]. now rewrite String.eqb_sym.
  - unfold headersSent. destruct (head r) as [[c hs]|] eqn:Hh; cbn; [now rewrite Hh|].
    assert (In (name, value)
              (set_header "Content-Type" "application/json; charset=utf-8" (headers r)))
      by (now apply set_header_other).
    split; [assumption|]. intros c hs Heq. inversion Heq; subst. assumption.
  - destruct (finished r); [auto|]. unfold flush.
    destruct (head r) as [[c hs]|] eqn:Hh; cbn; [now rewrite Hh|].
    split; [assumption|]. intros c hs Heq. inversion Heq; subst. assumption.
  - unfold flush. destruct (head r) as [[c hs]|] eqn:Hh; cbn; [now rewrite Hh|].
    split; [assumption|]. intros c hs Heq. inversion Heq; subst. assumption.
Qed.

Lemma replay_carries t : forall r,
  Forall settled t -> carries r -> carries (replay_from r t).
Proof.
  induction t as [|e t IH]; intros r Ht Hr; [exact Hr|].
  inversion Ht; subst. cbn. apply IH; [assumption|]. now apply apply_carries.
Qed.

(** A header set while nothing was sent, and never set to another value,
    is in the head of the response when the head goes out. *)
Lemma header_kept pre rest c hs :
  Forall (fun e => silent e = true) pre ->
  Forall settled rest ->
  head (replay ((pre ++ [ESetHeader name value]) ++ rest)) = Some (c, hs) ->
  In (name, value) hs.
Proof.
  intros Hpre Hrest Hh. unfold replay in Hh. rewrite !replay_from_app in Hh.
  pose proof (replay_from_silent pre fresh Hpre unsent_fresh) as Hu.
  set (r := replay_from fresh pre) in *. clearbody r.
  assert (Hc : carries (replay_from r [ESetHeader name value])).
  { rewrite (unsent_record r Hu). cbn. split; [apply set_header_same|discriminate]. }
  exact (proj2 (replay_carries rest _ Hrest Hc) c hs Hh).
Qed.

End Headers.

Section HeaderSource.

Variable name : string.
Hypothesis not_content_type : (name =? "Content-Type")%string = false.

(** Where a header of the response comes from. *)
Lemma apply_header_source (Q : string -> Prop) r e :
  (forall v, e = ESetHeader name v -> Q v) ->
  (forall v, In (name, v) (headers r) -> Q v) ->
  (forall c hs v, head r = Some (c, hs) -> In (name, v) hs -> Q v) ->
  (forall v, In (name, v) (headers (apply r e)) -> Q v) /\
  (forall c hs v, head (apply r e) = Some (c, hs) -> In (name, v) hs -> Q v).
Proof.
  intros He Hin Hhead.
  destruct e as [n v|code|p|text [|]| | | | | | | | | |]; cbn [apply]; auto.
  - destruct (headersSent r); cbn; [auto|]. split; [|assumption].
    intros v' Hv'. apply set_header_inv in Hv' as [Hv'|(-> & ->)]; auto.
  - unfold headersSent. destruct (head r) as [[c hs]|] eqn:Hh; cbn.
    + rewrite Hh. auto.
    + assert (Hset : forall v,
                 In (name, v) (set_header "Content-Type"
                                 "application/json; charset=utf-8" (headers r)) -> Q v).
      { intros v Hv. apply set_header_inv in Hv as [Hv|(Hn & _)]; [auto|].
        subst name. discriminate. }
      split; [assumption|]. intros c hs v Heq. inversion Heq; subst. apply Hset.
  - destruct (finished r); [auto|]. unfold flush.
    destruct (head r) as [[c hs]|] eqn:Hh; cbn; [rewrite Hh; auto|].
    split; [assumption|]. intros c hs v Heq. inversion Heq; subst. apply Hin.
  - unfold flush. destruct (head r) as [[c hs]|] eqn:Hh; cbn; [rewrite Hh; auto|].
    split; [assumption|]. intros c hs v Heq. inversion Heq; subst. apply Hin.
Qed.

Lemma replay_header_source (Q : string -> Prop) t : forall r,
  (forall v, In (ESetHeader name v) t -> Q v) ->
  (forall v, In (name, v) (headers r) -> Q v) ->
  (forall c hs v, head r = Some (c, hs) -> In (name, v) hs -> Q v) ->
  forall c hs v, head (replay_from r t) = Some (c, hs) -> In (name, v) hs -> Q v.
Proof.
  induction t as [|e t IH]; intros r Ht Hin Hhead; [exact Hhead|].
  cbn. destruct (apply_header_source Q r e) as (H1 & H2); auto.
  { intros v ->. apply Ht. now left. }
  apply IH; auto. intros v Hv. apply Ht. now right.
Qed.

(** A header in the head of the response was set by the handler. *)
Lemma header_was_set t c hs v :
  head (replay t) = Some (c, hs) -> In (name, v) hs -> In (ESetHeader name v) t.
Proof.
  apply (replay_header_source (fun v => In (ESetHeader name v) t) t fresh); auto.
  - intros v' [].
  - intros c' hs' v' H. discriminate.
Qed.

End HeaderSource.

Lemma cors_trace w req :
  fst (cors w req) =
  (match origin req with
   | Some o =>
       if negb (o =? EmptyString)%string && includes (allowedOrigins w) o
       then [ESetHeader ALLOW_ORIGIN o] else []
   | None => []
   end
   ++ [ESetHeader "Access-Control-Allow-Methods" "GET,POST,OPTIONS";
       ESetHeader "Access-Control-Allow-Headers" "Content-Type,Authorization"]
   ++ if (method req =? "OPTIONS")%string then [EStatus 200; EEnd] else [])%list.
Proof.
  unfold cors. fold (allowedOrigins w).
  destruct (origin req) as [o|];
    [destruct (negb (o =? EmptyString)%string && includes (allowedOrigins w) o)|];
    destruct (method req =? "OPTIONS")%string; reflexivity.
Qed.

(** The trace of a run starts with the calls of the CORS block. *)
Lemma handler_starts_with_cors w req :
  exists rest, fst (handler w req) = (fst (cors w req) ++ rest)%list.
Proof.
  unfold handler, admission. rewrite !fst_bind, <- app_assoc. eauto.
Qed.

Lemma head_of_status t c :
  http_status t = Some c -> exists hs, head (replay t) = Some (c, hs).
Proof.
  unfold http_status. destruct (head (replay t)) as [[c' hs]|]; [|discriminate].
  cbn. intros H. inversion H; subst. eauto.
Qed.

(** A header the handler sets before anything is sent, and to one value
    only, is in the head of the response. *)
Lemma handler_header_kept w req name value pre rest :
  (name =? "Content-Type")%string = false ->
  fst (handler w req) = ((pre ++ [ESetHeader name value]) ++ rest)%list ->
  Forall (fun e => silent e = true) pre ->
  (forall v, In (ESetHeader name v) (fst (handler w req)) -> v = value) ->
  has_header (replay (fst (handler w req))) name value.
Proof.
  intros Hn Ht Hpre Hone.
  destruct (handler_status w req) as (c & Hc & _).
  apply head_of_status in Hc as (hs & Hh).
  exists c, hs. split; [assumption|].
  rewrite Ht in Hh. apply (header_kept name value Hn pre rest c hs Hpre); [|assumption].
  apply Forall_forall. intros e He v ->. apply Hone. rewrite Ht.
  apply in_or_app. now right.
Qed.

(** The CORS block alone sets the two allowance headers. *)
Lemma allowances_set_once w req :
  Forall (fun e =>
            (forall v, e = ESetHeader "Access-Control-Allow-Methods" v ->
                       v = "GET,POST,OPTIONS"%string) /\
            (forall v, e = ESetHeader "Access-Control-Allow-Headers" v ->
                       v = "Content-Type,Authorization"%string))
         (fst (handler w req)).
Proof.
  unfold handler, admission, cors, basic_checks, env_checks, verify_signature,
    ownership_check, entitlement, owner_step, balance_step, proxy, res_write_call. cbv zeta.
  trace_forall; try apply reply_trace;
    split; intros v Hv; solve [discriminate Hv | inversion Hv; reflexivity].
Qed.

(** X21. Every response, the refusals and the error replies included,
    goes out with the two CORS allowance headers, and carries the
    allow-origin header exactly when the request named an origin of the
    allowed list, with that origin as its value. *)
Theorem cors_headers_on_every_response w req :
  has_header (replay (fst (handler w req)))
             "Access-Control-Allow-Methods" "GET,POST,OPTIONS" /\
  has_header (replay (fst (handler w req)))
             "Access-Control-Allow-Headers" "Content-Type,Authorization" /\
  forall v,
    has_header (replay (fst (handler w req))) "Access-Control-Allow-Origin" v <->
    origin req = Some v /\ v <> EmptyString /\ In v (allowedOrigins w).
Proof.
  destruct (handler_starts_with_cors w req) as (rest & Ht).
  rewrite cors_trace in Ht.
  pose proof (allowances_set_once w req) as Honce. rewrite Forall_forall in Honce.
  set (pre := match origin req with
              | Some o =>
                  if negb (o =? EmptyString)%string && includes (allowedOrigins w) o
                  then [ESetHeader ALLOW_ORIGIN o] else []
              | None => []
              end) in *.
  assert (Hpre : Forall (fun e => silent e = true) pre).
  { subst pre. destruct (origin req) as [o|]; [|constructor].
    destruct (_ && _); repeat constructor. }
  split; [|split].
  - apply (handler_header_kept w req _ _ pre
             (ESetHeader "Access-Control-Allow-Headers" "Content-Type,Authorization"
                :: (if (method req =? "OPTIONS")%string then [EStatus 200; EEnd] else [])
                ++ rest)); [reflexivity| |assumption|].
    + rewrite Ht. repeat (rewrite <- app_assoc; cbn [app]). reflexivity.
    + intros v Hv. exact (proj1 (Honce _ Hv) v eq_refl).
  - apply (handler_header_kept w req _ _
             (pre ++ [ESetHeader "Access-Control-Allow-Methods" "GET,POST,OPTIONS"])
             ((if (method req =? "OPTIONS")%string then [EStatus 200; EEnd] else [])
                ++ rest)); [reflexivity| | |].
    + rewrite Ht. repeat (rewrite <- app_assoc; cbn [app]). reflexivity.
    + apply Forall_app. split; [assumption|repeat constructor].
    + intros v Hv. exact (proj2 (Honce _ Hv) v eq_refl).
  - intros v. rewrite <- handler_allow_origin. split.
    + intros (c & hs & Hh & Hin).
      now apply (header_was_set ALLOW_ORIGIN eq_refl _ c hs v Hh).
    + intros Hset. pose proof Hset as Hcond.
      apply handler_allow_origin in Hcond as (Ho & Hne & Hin).
      apply (handler_header_kept w req _ _ []
               (ESetHeader "Access-Control-Allow-Methods" "GET,POST,OPTIONS"
                  :: ESetHeader "Access-Control-Allow-Headers" "Content-Type,Authorization"
                  :: (if (method req =? "OPTIONS")%string then [EStatus 200; EEnd] else [])
                  ++ rest)); [reflexivity| |constructor|].
      * rewrite Ht. subst pre. rewrite Ho.
        apply includes_In in Hin. apply String.eqb_neq in Hne. rewrite Hne, Hin.
        reflexivity.
      * intros v' Hv'. apply handler_allow_origin in Hv' as (Ho' & _). congruence.
Qed.

(** *** The read-node address *)

Lemma rpc_url_cases w :
  rpc_url w <> EmptyString /\
  (env_set (RPC_URL w) = true -> RPC_URL w = Some (rpc_url w)) /\
  (env_set (RPC_URL w) = false -> rpc_url w = "https://cloudflare-eth.com"%string).
Proof.
  unfold rpc_url, env_or, env_set.
  destruct (RPC_URL w) as [s|]; [destruct (s =? EmptyString)%string eqn:Hs|]; cbn;
    repeat split; try discriminate; auto.
  now apply String.eqb_neq.
Qed.

(** X22. The read-node address is never missing: it is the configured
    one, or the public default when none (or the empty string) is
    configured, so the reply [Server misconfigured (missing RPC_URL)] of
    the ENV checks is never sent. *)
Theorem read_node_url_never_missing w req :
  Forall (fun e => e <> EJson (error_object "Server misconfigured (missing RPC_URL)"))
         (fst (handler w req)) /\
  forall u, In (ENewProvider u) (fst (handler w req)) ->
    u <> EmptyString /\
    (env_set (RPC_URL w) = true -> RPC_URL w = Some u) /\
    (env_set (RPC_URL w) = false -> u = "https://cloudflare-eth.com"%string).
Proof.
  split.
  - unfold handler. apply trace_bind.
    + unfold admission. apply trace_bind.
      { unfold cors. trace_forall; discriminate. }
      intros _. apply trace_bind.
      { unfold basic_checks. trace_forall; try apply reply_trace; discriminate. }
      intros f. apply trace_bind.
      { rewrite env_checks_eq. destruct (env_set (OPENAI_API_KEY w)); cbn [fst];
          repeat constructor; discriminate. }
      intros rpc. unfold verify_signature.
      trace_forall; try apply reply_trace; discriminate.
    + intros a. unfold ownership_check, entitlement, owner_step, balance_step, proxy, res_write_call.
      cbv zeta. trace_forall; try apply reply_trace; discriminate.
  - intros u Hin.
    assert (Hf : In (ENewProvider u) (filter is_chain_call (fst (handler w req))))
      by (apply filter_In; now split).
    rewrite handler_chain_calls in Hf.
    destruct (snd (admission w req)); try contradiction.
    rewrite ownership_chain_calls in Hf.
    assert (Hu : u = rpc_url w).
    { destruct (truthy (nftContract (fields req))); [|contradiction].
      destruct Hf as [Hf|Hf]; [now inversion Hf|].
      destruct (JsonRpcProvider w (rpc_url w)); [|contradiction].
      destruct Hf as [Hf|Hf]; [discriminate|].
      destruct (Contract w (nftContract (fields req))); [|contradiction].
      apply in_app_or in Hf as [Hf|Hf].
      - destruct (nullish _); [contradiction|]. destruct Hf as [Hf|[]]. discriminate.
      - destruct (owner_matches _ _ _ _); [contradiction|].
        destruct Hf as [Hf|[]]. discriminate. }
    subst u. apply rpc_url_cases.
Qed.

(** *** What the decoder lets through *)

Module Utf8Out.

Import Utf8 Utf8Facts Decoding.
Local Open Scope N_scope.

















End Utf8Out.






(** *** One reply, and last *)

Lemma closes_ret {A} (a : A) : closes (ret a).
Proof. constructor. Qed.

Lemma closes_throw {A} : closes (throw (A:=A)).
Proof. constructor. Qed.

Lemma closes_lift {A} (o : option A) : closes (lift o).
Proof. destruct o; constructor. Qed.

Lemma closes_emit e : is_closing e = false -> closes (emit e).
Proof. intros He. unfold closes. cbn. now constructor. Qed.

(** [return res.json(...)], [return res.end()] *)
Lemma closes_returning {A} e :
  is_closing e = true -> closes (A:=A) (bind (emit e) (fun _ => return_)).
Proof. intros He. exists [], e. cbn. auto. Qed.

Lemma closes_bind {A B} (m : Handler A) (k : A -> Handler B) :
  closes m -> (forall a, closes (k a)) -> closes (bind m k).
Proof.
  unfold closes. intros Hm Hk.
  destruct m as [t [a| |]]; cbn [bind fst snd] in *; try assumption.
  specialize (Hk a). destruct (k a) as [t' [b| |]]; cbn [fst snd] in *.
  - apply Forall_app. auto.
  - destruct Hk as (pre & e & -> & He & Hpre).
    exists (t ++ pre)%list, e. rewrite app_assoc. split; [reflexivity|].
    split; [assumption|]. apply Forall_app. auto.
  - apply Forall_app. auto.
Qed.

Lemma closes_try_catch {A} (body handler : Handler A) :
  closes body -> closes handler -> closes (try_catch body handler).
Proof.
  unfold closes. intros Hb Hh.
  destruct body as [t [a| |]]; cbn [try_catch fst snd] in *; try assumption.
  destruct handler as [t' [b| |]]; cbn [fst snd] in *.
  - apply Forall_app. auto.
  - destruct Hh as (pre & e & -> & He & Hpre).
    exists (t ++ pre)%list, e. rewrite app_assoc. split; [reflexivity|].
    split; [assumption|]. apply Forall_app. auto.
  - apply Forall_app. auto.
Qed.

Lemma closes_when c (block : Handler unit) : closes block -> closes (when c block).
Proof. destruct c; [auto|intros _; apply closes_ret]. Qed.

Lemma closes_read_loop w n pending ending : closes (read_loop w n pending ending).
Proof.
  unfold closes. rewrite read_loop_completion.
  destruct ending; apply stream_io_trace; intros e He; destruct e; try discriminate;
    reflexivity.
Qed.

(** Decomposes a goal [closes m] along the structure of [m]. *)
Ltac closes :=
  repeat first
    [ apply closes_ret | apply closes_throw | apply closes_lift
    | apply closes_read_loop
    | apply closes_returning; reflexivity
    | apply closes_emit; reflexivity
    | apply closes_bind; [|intros ?]
    | apply closes_try_catch
    | apply closes_when
    | match goal with
      | |- closes (if ?c then _ else _) => destruct c
      | |- closes (match ?o with Some _ => _ | None => _ end) => destruct o
      end ].




(** *** The error log *)

Lemma status_calls_app t1 t2 :
  status_calls (t1 ++ t2) = (status_calls t1 ++ status_calls t2)%list.
Proof. apply flat_map_app. Qed.

Lemma logs_ret {A} (a : A) : logs (ret a).
Proof. split; reflexivity. Qed.

Lemma logs_throw {A} : logs (throw (A:=A)).
Proof. split; reflexivity. Qed.

Lemma logs_lift {A} (o : option A) : logs (lift o).
Proof. destruct o; [apply logs_ret|apply logs_throw]. Qed.

Lemma logs_emit e :
  status_calls [e] = [] -> is_error_log e = false -> logs (emit e).
Proof. intros Hs He. unfold logs. cbn [emit fst snd filter]. now rewrite Hs, He. Qed.

Lemma logs_prefixed {A} t (m : Handler A) :
  status_calls t = [] -> filter is_error_log t = [] -> logs m ->
  logs (A:=A) ((t ++ fst m)%list, snd m).
Proof.
  intros Hs He. unfold logs. cbn [fst snd].
  rewrite status_calls_app, filter_app, Hs, He. cbn [app]. auto.
Qed.

Lemma logs_bind {A B} (m : Handler A) (k : A -> Handler B) :
  logs m -> (forall a, logs (k a)) -> logs (bind m k).
Proof.
  intros Hm Hk. destruct m as [t [a| |]]; cbn [bind]; try assumption.
  destruct Hm as (Hs & He). specialize (Hk a).
  pose proof (logs_prefixed t (k a) Hs He Hk) as H. now destruct (k a).
Qed.

Lemma logs_try_catch {A} (body handler : Handler A) :
  logs body -> logs handler -> logs (try_catch body handler).
Proof.
  intros Hb Hh. destruct body as [t [a| |]]; cbn [try_catch]; try assumption.
  destruct Hb as (Hs & He).
  pose proof (logs_prefixed t handler Hs He Hh) as H. now destruct handler.
Qed.

Lemma logs_when c (block : Handler unit) : logs block -> logs (when c block).
Proof. destruct c; [auto|intros _; apply logs_ret]. Qed.

(** [return res.status(code).json(payload)], no error logged. *)
Lemma logs_reply {A} code payload : code <> 500 -> logs (reply (A:=A) code payload).
Proof.
  intros Hc. unfold logs. cbn. split; [intros H; contradiction|congruence].
Qed.

(** The same after [console.error(message)]. *)
Lemma logs_error_reply {A} message code payload :
  code = 400 \/ code = 500 ->
  logs (A:=A) (bind (emit (EConsole LError message)) (fun _ => reply code payload)).
Proof. intros Hc. unfold logs. cbn. split; [discriminate|auto]. Qed.

(** [return res.status(200).end()], [return res.end()] *)
Lemma logs_ending {A} :
  logs (A:=A) (bind (emit (EStatus 200))
                    (fun _ => bind (emit EEnd) (fun _ => return_))).
Proof. unfold logs. cbn. split; [discriminate|congruence]. Qed.

Lemma logs_end {A} : logs (A:=A) (bind (emit EEnd) (fun _ => return_)).
Proof. reflexivity. Qed.

Lemma logs_read_loop w n pending ending : logs (read_loop w n pending ending).
Proof.
  assert (H : status_calls (fst (read_loop w n pending ending)) = [] /\
              filter is_error_log (fst (read_loop w n pending ending)) = []).
  { revert n. induction pending as [|value rest IH]; intros n.
    - destruct ending; split; reflexivity.
    - rewrite read_loop_step. destruct (IH (S n)) as (Hs & He).
      change (?a :: ?b :: ?l ++ ?r)%list with ((a :: b :: l) ++ r)%list.
      rewrite status_calls_app, filter_app, Hs, He.
      destruct (res_write w n); split; reflexivity. }
  unfold logs. rewrite read_loop_completion. now destruct ending.
Qed.

(** Decomposes a goal [logs m] along the structure of [m]. *)
Ltac logs :=
  repeat first
    [ apply logs_ret | apply logs_throw | apply logs_lift
    | apply logs_read_loop
    | apply logs_ending | apply logs_end
    | apply logs_error_reply; auto
    | apply logs_reply; discriminate
    | apply logs_emit; reflexivity
    | apply logs_bind; [|intros ?]
    | apply logs_try_catch
    | apply logs_when
    | match goal with
      | |- logs (if ?c then _ else _) => destruct c
      | |- logs (match ?o with Some _ => _ | None => _ end) => destruct o
      end ].

Lemma handler_logs w req : logs (handler w req).
Proof.
  unfold handler, admission.
  apply logs_bind.
  { apply logs_bind; [unfold cors; logs|]. intros _.
    apply logs_bind; [unfold basic_checks; logs|]. intros f.
    apply logs_bind.
    { rewrite env_checks_eq. destruct (env_set (OPENAI_API_KEY w)); [apply logs_ret|].
      unfold logs. cbn. split; [discriminate|auto]. }
    intros rpc. unfold verify_signature. logs. }
  intros a. unfold ownership_check, entitlement, owner_step, balance_step, proxy, res_write_call.
  cbv zeta. logs.
Qed.

(** The status of the head is the default or one set by the handler. *)
Lemma replay_status_source (Q : Z -> Prop) t : forall r,
  (forall c, In c (status_calls t) -> Q c) ->
  Q (statusCode r) ->
  (forall c hs, head r = Some (c, hs) -> Q c) ->
  forall c hs, head (replay_from r t) = Some (c, hs) -> Q c.
Proof.
  induction t as [|e t IH]; intros r Ht Hs Hh; [exact Hh|].
  cbn [replay_from fold_left]. apply IH.
  - intros c Hc. apply Ht. cbn [status_calls flat_map]. apply in_or_app. now right.
  - destruct e as [n v|code|p|text [|]| | | | | | | | | |]; cbn [apply]; auto.
    + now destruct (headersSent r).
    + apply Ht. now left.
    + now destruct (headersSent r).
    + destruct (finished r); [assumption|]. unfold flush. now destruct (head r).
    + unfold flush. now destruct (head r).
  - destruct e as [n v|code|p|text [|]| | | | | | | | | |]; cbn [apply]; auto.
    + now destruct (headersSent r).
    + unfold headersSent. destruct (head r) as [[c0 hs0]|] eqn:Hr; [now rewrite Hr|].
      cbn [head]. intros c hs H. inversion H; subst. assumption.
    + destruct (finished r); [assumption|]. unfold flush.
      destruct (head r) as [[c0 hs0]|] eqn:Hr; cbn [head]; [now rewrite Hr|].
      intros c hs H. inversion H; subst. assumption.
    + unfold flush. destruct (head r) as [[c0 hs0]|] eqn:Hr; cbn [head];
        [now rewrite Hr|].
      intros c hs H. inversion H; subst. assumption.
Qed.

Lemma status_was_set t c :
  http_status t = Some c -> c = 200 \/ In c (status_calls t).
Proof.
  intros H. apply head_of_status in H as (hs & H).
  apply (replay_status_source (fun c => c = 200 \/ In c (status_calls t)) t fresh)
    with (hs := hs); auto.
  intros c' hs' H'. discriminate.
Qed.

(** X26. The error log follows the status: a response with status 500
    comes with a [console.error], and a response with status 401, 403 or
    405 with none. *)
Theorem server_errors_are_logged w req :
  (http_status (fst (handler w req)) = Some 500 ->
   exists message, In (EConsole LError message) (fst (handler w req))) /\
  (forall c, http_status (fst (handler w req)) = Some c ->
             c = 401 \/ c = 403 \/ c = 405 ->
             forall message, ~ In (EConsole LError message) (fst (handler w req))).
Proof.
  pose proof (handler_logs w req) as H. unfold logs in H.
  pose proof (gate_contained w req) as Hg. unfold contained in Hg.
  assert (Hr : snd (handler w req) = Return).
  { rewrite handler_gate. destruct (gate w req) as [t [a| |]]; cbn [snd] in *;
      [apply proxy_returns|reflexivity|congruence]. }
  rewrite Hr in H.
  assert (Hlog : forall message,
             In (EConsole LError message) (fst (handler w req)) ->
             filter is_error_log (fst (handler w req)) <> []).
  { intros message Hin Hnil.
    assert (Hf : In (EConsole LError message)
                    (filter is_error_log (fst (handler w req))))
      by (apply filter_In; now split).
    now rewrite Hnil in Hf. }
  split.
  - intros Hs. apply status_was_set in Hs as [Hs|Hs]; [discriminate|].
    destruct (status_calls (fst (handler w req))) as [|c [|c' l]]; try contradiction.
    destruct Hs as [->|[]]. destruct H as (H & _). specialize (H eq_refl).
    destruct (filter is_error_log (fst (handler w req))) as [|e l] eqn:Hf;
      [congruence|].
    assert (He : In e (filter is_error_log (fst (handler w req))))
      by (rewrite Hf; now left).
    apply filter_In in He as (He & Hk).
    destruct e as [| | | | |[|] message| | | | | | | |]; try discriminate. eauto.
  - intros c Hs Hc message Hin. apply Hlog in Hin.
    apply status_was_set in Hs as [Hs|Hs]; [lia|].
    destruct (status_calls (fst (handler w req))) as [|c0 [|c' l]]; try contradiction.
    destruct Hs as [->|[]]. destruct H as (_ & H). specialize (H Hin). lia.
Qed.

Lemma server_error_logged_offline :
  exists message,
    In (EConsole LError message) (fst (handler Cases.offline Scenario.holder_request)).
Proof.
  exact (proj1 (server_errors_are_logged Cases.offline Scenario.holder_request)
               eq_refl).
Defined.
